(** * Longstaff-Schwartz Monte Carlo: the deprecated [lsmc] routine

    Shallow embedding of
    [src/application/Longstaff_Schwartz/deprecated/LSMC.py].

    numpy arrays are lists (a 2-dimensional array is the list of its rows,
    axis 0 first).  Python exceptions are an error monad that also logs
    the calls of the three collaborators (payoff function, fit, predict).
    The scalar type of the float arrays is an interface ([Scalar]) with two
    instances: exact real arithmetic extended by NaN, and IEEE binary64. *)

From Stdlib Require Import ZArith Bool String Reals Lra Floats.
From stdpp Require Import base tactics option list.

Local Open Scope Z_scope.

(** ** Integer and boolean array primitives *)

Module Np.

(** [np.cumsum] of a 1-dimensional integer array; [cumsum_from a l] is the
    running sum started at [a]. *)
Fixpoint cumsum_from (a : Z) (l : list Z) : list Z :=
  match l with
  | [] => []
  | x :: l' => (a + x) :: cumsum_from (a + x) l'
  end.

Definition cumsum (l : list Z) : list Z := cumsum_from 0 l.

(** [np.cumsum(m, axis=0)] of a 2-dimensional integer array: every row is
    the elementwise sum of the rows up to it. *)
Fixpoint cumsum_rows_from (acc : list Z) (rows : list (list Z))
  : list (list Z) :=
  match rows with
  | [] => []
  | r :: rs =>
      let a := zip_with Z.add acc r in
      a :: cumsum_rows_from a rs
  end.

Definition cumsum_axis0 (m : list (list Z)) : list (list Z) :=
  match m with
  | [] => []
  | r :: rs => r :: cumsum_rows_from r rs
  end.

(** numpy casts a boolean array to integers before summing. *)
Definition astype_int (m : list (list bool)) : list (list Z) :=
  map (map Z.b2z) m.

(** [m == 1], elementwise. *)
Definition eq_one (m : list (list Z)) : list (list bool) :=
  map (map (fun z => z =? 1)) m.

(** Line 59: [np.cumsum(np.cumsum(stopping_rule, axis=0), axis=0) == 1]. *)
Definition collapse (stopping_rule : list (list bool)) : list (list bool) :=
  eq_one (cumsum_axis0 (cumsum_axis0 (astype_int stopping_rule))).

(** numpy accumulates the sums of a boolean array in 64-bit signed
    integers.  These are the same sums with the wrap-around written out;
    the section on 64-bit sums shows that on fewer than 2^31 rows nothing
    wraps, which is why [collapse] takes the sums in [Z]. *)
Definition wrap64 (z : Z) : Z := (z + 2 ^ 63) mod 2 ^ 64 - 2 ^ 63.

Definition add64 (a b : Z) : Z := wrap64 (a + b).

Fixpoint cumsum_rows_from_int64 (acc : list Z) (rows : list (list Z))
  : list (list Z) :=
  match rows with
  | [] => []
  | r :: rs =>
      let a := zip_with add64 acc r in
      a :: cumsum_rows_from_int64 a rs
  end.

Definition cumsum_axis0_int64 (m : list (list Z)) : list (list Z) :=
  match m with
  | [] => []
  | r :: rs => r :: cumsum_rows_from_int64 r rs
  end.

Definition collapse_int64 (stopping_rule : list (list bool))
  : list (list bool) :=
  eq_one (cumsum_axis0_int64 (cumsum_axis0_int64 (astype_int stopping_rule))).

(** Column [n] of a 2-dimensional array. *)
Definition column {A} (n : nat) (m : list (list A)) : list A :=
  omap (fun row => row !! n) m.

(** Entry [(i, n)] of a 2-dimensional array, where there is one. *)
Definition entry {A} (m : list (list A)) (i n : nat) : option A :=
  m !! i ≫= fun row => row !! n.

(** Every row has [N] entries. *)
Definition rectangular {A} (N : nat) (m : list (list A)) : Prop :=
  Forall (fun row => length row = N) m.

End Np.

(** ** The index-based scan the specification proposes *)

Module Scan.

(** Index of the first [true] entry of path [n], if there is one. *)
Definition first_true_index (m : list (list bool)) (n : nat) : option nat :=
  fst <$> list_find (fun row => row !! n = Some true) m.

(** Keep, for every path, the entry at its first-true index only. *)
Definition keep_first_true (m : list (list bool)) : list (list bool) :=
  imap (fun i row =>
          imap (fun n _ => bool_decide (first_true_index m n = Some i)) row)
       m.

End Scan.

(** ** Exceptions and collaborator calls *)

(** The exceptions the routine can end with: a failed [assert] (the
    specification's ShapeError), numpy's index and shape errors, and
    whatever a collaborator raises. *)
Inductive exn : Type :=
| AssertionError (msg : string)
| IndexError
| ValueError
| Exception (msg : string).

Inductive result (A : Type) : Type :=
| Ok (a : A)
| Raise (e : exn).
Arguments Ok {A} a.
Arguments Raise {A} e.

#[global] Instance result_ret : MRet result := fun A a => Ok a.
#[global] Instance result_bind : MBind result := fun A B k m =>
  match m with
  | Ok a => k a
  | Raise e => Raise e
  end.

(** The 2-, 1- and 0-dimensional array-likes a caller can pass; an array of
    three or more dimensions is kept by its rank only. *)
Inductive ndarray (F : Type) : Type :=
| Arr0 (x : F)
| Arr1 (v : list F)
| Arr2 (ncols : nat) (rows : list (list F))
| ArrN (extra : nat).
Arguments Arr0 {F} x.
Arguments Arr1 {F} v.
Arguments Arr2 {F} ncols rows.
Arguments ArrN {F} extra.

(** A call of one of the three collaborators, with its array arguments. *)
Inductive call (F : Type) : Type :=
| CallPayoff (X : ndarray F) (K : F) (type : string)
| CallFit (x y : list F)
| CallPredict (x : list F).
Arguments CallPayoff {F} X K type.
Arguments CallFit {F} x y.
Arguments CallPredict {F} x.

(** A computation: the collaborator calls made so far, in order, and how
    it ended. *)
Definition comp (F A : Type) : Type := (list (call F) * result A)%type.

Definition lift {F A} (r : result A) : comp F A := ([], r).
Definition invoke {F A} (c : call F) (r : result A) : comp F A := ([c], r).

#[global] Instance comp_ret {F} : MRet (comp F) := fun A a => ([], Ok a).
#[global] Instance comp_bind {F} : MBind (comp F) := fun A B k m =>
  match m with
  | (l, Ok a) => let '(l', r) := k a in (l ++ l', r)
  | (l, Raise e) => (l, Raise e)
  end.

Definition assert_ {F} (b : bool) (msg : string) : comp F unit :=
  lift (if b then Ok tt else Raise (AssertionError msg)).

(** [for j in js: s = body(j, s)] *)
Fixpoint for_each {F S J} (js : list J) (body : J -> S -> comp F S) (s : S)
  : comp F S :=
  match js with
  | [] => mret s
  | j :: js' => s' ← body j s; for_each js' body s'
  end.

(** [range(start, 0, -1)]: start, start-1, ..., 1. *)
Fixpoint range_down (start : nat) : list nat :=
  match start with
  | O => []
  | S k => S k :: range_down k
  end.

(** ** Array indexing and broadcasting *)

Module Index.

(** A Python integer index into an axis of [len] entries: negative indices
    count from the end, anything outside raises. *)
Definition norm_index (i : Z) (len : nat) : result nat :=
  let i' := if i <? 0 then i + Z.of_nat len else i in
  if (0 <=? i') && (i' <? Z.of_nat len) then Ok (Z.to_nat i')
  else Raise IndexError.

(** First index of the slice [start:] of an axis of [len] entries. *)
Definition slice_start (start : Z) (len : nat) : nat :=
  if start <? 0 then Z.to_nat (Z.max 0 (start + Z.of_nat len))
  else Nat.min (Z.to_nat start) len.

(** [m[i, :]] *)
Definition getrow {A} (m : list (list A)) (i : Z) : result (list A) :=
  k ← norm_index i (length m);
  match m !! k with
  | Some row => Ok row
  | None => Raise IndexError
  end.

(** [v[i]] *)
Definition getitem {A} (v : list A) (i : Z) : result A :=
  k ← norm_index i (length v);
  match v !! k with
  | Some x => Ok x
  | None => Raise IndexError
  end.

(** A 1-dimensional value assigned to [N] slots: it has [N] entries, or one
    entry that is repeated. *)
Definition broadcast_to {A} (N : nat) (v : list A) : result (list A) :=
  if (length v =? N)%nat then Ok v
  else match v with
       | [x] => Ok (replicate N x)
       | _ => Raise ValueError
       end.

(** [m[i, :] = v] for a matrix with [N] columns. *)
Definition setrow {A} (N : nat) (i : Z) (v : list A) (m : list (list A))
  : result (list (list A)) :=
  k ← norm_index i (length m);
  row ← broadcast_to N v;
  Ok (<[k := row]> m).

(** [m[start:, ] = v] for a matrix with [N] columns. *)
Definition setrows_from {A} (N : nat) (start : Z) (v : list A)
    (m : list (list A)) : result (list (list A)) :=
  let s := slice_start start (length m) in
  row ← broadcast_to N v;
  Ok (take s m ++ replicate (length m - s) row).

(** The entries of [v] where [mask] is true. *)
Fixpoint compress {A} (mask : list bool) (v : list A) : list A :=
  match mask, v with
  | b :: mask', x :: v' =>
      if b then x :: compress mask' v' else compress mask' v'
  | _, _ => []
  end.

(** [v[mask]] *)
Definition getitem_mask {A} (v : list A) (mask : list bool)
  : result (list A) :=
  if (length mask =? length v)%nat then Ok (compress mask v)
  else Raise IndexError.

(** Write [vals], in order, into the entries of [v] where [mask] is true. *)
Fixpoint place {A} (mask : list bool) (vals : list A) (v : list A) : list A :=
  match mask, v with
  | true :: mask', x :: v' =>
      match vals with
      | y :: vals' => y :: place mask' vals' v'
      | [] => x :: place mask' [] v'
      end
  | false :: mask', x :: v' => x :: place mask' vals v'
  | _, _ => v
  end.

Definition count_true (mask : list bool) : nat := length (filter Is_true mask).

(** [v[mask] = vals] *)
Definition setitem_mask {A} (v : list A) (mask : list bool) (vals : list A)
  : result (list A) :=
  if (length mask =? length v)%nat then
    vals' ← broadcast_to (count_true mask) vals;
    Ok (place mask vals' v)
  else Raise IndexError.

(** [m[i, mask]] *)
Definition getitem_row_mask {A} (m : list (list A)) (i : Z)
    (mask : list bool) : result (list A) :=
  row ← getrow m i;
  getitem_mask row mask.

(** [m[i, mask] = vals] *)
Definition setitem_row_mask {A} (m : list (list A)) (i : Z)
    (mask : list bool) (vals : list A) : result (list (list A)) :=
  k ← norm_index i (length m);
  row ← getrow m i;
  row' ← setitem_mask row mask vals;
  Ok (<[k := row']> m).

(** An elementwise binary operation on two 1-dimensional arrays. *)
Definition broadcast2 {A B C} (f : A -> B -> C) (a : list A) (b : list B)
  : result (list C) :=
  if (length a =? length b)%nat then Ok (zip_with f a b)
  else match a, b with
       | [x], _ => Ok (map (f x) b)
       | _, [y] => Ok (map (fun x => f x y) a)
       | _, _ => Raise ValueError
       end.

End Index.

(** ** Shapes of the array arguments *)

(** [np.ndim] *)
Definition ndim {F} (a : ndarray F) : nat :=
  match a with
  | Arr0 _ => 0
  | Arr1 _ => 1
  | Arr2 _ _ => 2
  | ArrN extra => 3 + extra
  end.

(** [len] of a 1- or 2-dimensional array (the assertions on [np.ndim] come
    first, so [len] is never taken of anything else). *)
Definition len {F} (a : ndarray F) : nat :=
  match a with
  | Arr1 v => length v
  | Arr2 _ rows => length rows
  | _ => 0
  end.

(** [np.shape(X)[1]] *)
Definition shape1 {F} (a : ndarray F) : nat :=
  match a with
  | Arr2 ncols _ => ncols
  | _ => 0
  end.

Definition data1 {F} (a : ndarray F) : list F :=
  match a with
  | Arr1 v => v
  | _ => []
  end.

Definition data2 {F} (a : ndarray F) : list (list F) :=
  match a with
  | Arr2 _ rows => rows
  | _ => []
  end.

(** ** The scalar type of the float arrays *)

Class Scalar (F : Type) : Type := {
  fnan : F;
  fzero : F;
  fone : F;
  fopp : F -> F;
  fadd : F -> F -> F;
  fsub : F -> F -> F;
  fmul : F -> F -> F;
  fdiv : F -> F -> F;
  fexp : F -> F;
  fgt : F -> F -> bool;
  f_of_nat : nat -> F
}.

(** Exact real arithmetic with one extra value, NaN, that every operation
    propagates; a division by zero gives NaN. *)
Inductive Rnan : Type :=
| NaN
| Fin (x : R).

Module RealScalar.

Definition lift1 (f : R -> R) (a : Rnan) : Rnan :=
  match a with
  | Fin x => Fin (f x)
  | NaN => NaN
  end.

Definition lift2 (f : R -> R -> R) (a b : Rnan) : Rnan :=
  match a, b with
  | Fin x, Fin y => Fin (f x y)
  | _, _ => NaN
  end.

Definition div (a b : Rnan) : Rnan :=
  match a, b with
  | Fin x, Fin y => if Req_dec_T y 0 then NaN else Fin (x / y)%R
  | _, _ => NaN
  end.

Definition gt (a b : Rnan) : bool :=
  match a, b with
  | Fin x, Fin y => if Rlt_dec y x then true else false
  | _, _ => false
  end.

#[global] Instance scalar : Scalar Rnan := {|
  fnan := NaN;
  fzero := Fin 0;
  fone := Fin 1;
  fopp := lift1 Ropp;
  fadd := lift2 Rplus;
  fsub := lift2 Rminus;
  fmul := lift2 Rmult;
  fdiv := div;
  fexp := lift1 exp;
  fgt := gt;
  f_of_nat := fun n => Fin (INR n)
|}.

End RealScalar.

(** IEEE binary64.  The kernel's floats have no exponential: the [exp] of
    the C library behind [np.exp] is a parameter. *)
Module Binary64.

Definition scalar (libm_exp : float -> float) : Scalar float := {|
  fnan := PrimFloat.nan;
  fzero := PrimFloat.zero;
  fone := PrimFloat.one;
  fopp := PrimFloat.opp;
  fadd := PrimFloat.add;
  fsub := PrimFloat.sub;
  fmul := PrimFloat.mul;
  fdiv := PrimFloat.div;
  fexp := libm_exp;
  fgt := fun a b => PrimFloat.ltb b a;
  f_of_nat := fun n => PrimFloat.of_uint63 (Uint63.of_Z (Z.of_nat n))
|}.

End Binary64.

(** ** Float array primitives *)

Section FloatArrays.
Context {F : Type} `{Scalar F}.

(** The cast numpy applies to a boolean operand of a float product. *)
Definition of_bool (b : bool) : F := if b then fone else fzero.

(** [np.diff(t)]: [t[1:] - t[:-1]]. *)
Definition diff (t : list F) : list F := zip_with fsub (tail t) t.

(** [np.cumprod] of a 1-dimensional array. *)
Fixpoint cumprod_from (a : F) (v : list F) : list F :=
  match v with
  | [] => []
  | x :: v' => fmul a x :: cumprod_from (fmul a x) v'
  end.

Definition cumprod (v : list F) : list F :=
  match v with
  | [] => []
  | x :: v' => x :: cumprod_from x v'
  end.

Definition fsum (v : list F) : F := foldl fadd fzero v.

(** [a @ b] of two 1-dimensional arrays of equal length. *)
Definition dot (a b : list F) : F := fsum (zip_with fmul a b).

(** [m.T] of a matrix with [N] columns. *)
Definition transpose (N : nat) (m : list (list F)) : list (list F) :=
  map (fun n => Np.column n m) (seq 0 N).

(** [m @ v] of a 2-dimensional and a 1-dimensional array. *)
Definition matvec (m : list (list F)) (v : list F) : list F :=
  map (fun row => dot row v) m.

(** [np.mean] of a 1-dimensional array; of an empty one it is 0/0. *)
Definition mean (v : list F) : F := fdiv (fsum v) (f_of_nat (length v)).

(** [a * m] of a boolean and a float matrix of the same shape. *)
Definition mask_mul (a : list (list bool)) (m : list (list F))
  : list (list F) :=
  zip_with (zip_with (fun b c => fmul (of_bool b) c)) a m.

End FloatArrays.

(** ** The routine *)

Section Lsmc.
Context {F : Type} `{Scalar F} {Model Params : Type}.

(** The collaborators: the payoff function and the fit/predict pair of the
    continuation-value estimator.  Each returns or raises. *)
Definition payoff_fn : Type := ndarray F -> F -> string -> result (list (list F)).
Definition fit_fn : Type := list F -> list F -> Params -> result Model.
Definition pred_fn : Type := list F -> Model -> Params -> result (list F).

(** The two matrices the backward loop updates in place. *)
Definition matrices : Type := (list (list bool) * list (list F))%type.

(** Lines 43-56: the body of the backward loop at date [j]. *)
Definition lsmc_step (N : nat) (X payoff : list (list F))
    (discount_factor : list F) (fit_func : fit_fn) (pred_func : pred_fn)
    (args : Params) (j : nat) (st : matrices) : comp F matrices :=
  let '(stopping_rule, cashflow) := st in
  let jz := Z.of_nat j in
  (* itm = payoff[j, :] > 0 *)
  payoff_j ← lift (Index.getrow payoff jz);
  let itm := map (fun p => fgt p fzero) payoff_j in
  (* fit = fit_func(X[j, itm], cashflow[j, itm] * discount_factor[j], ...) *)
  x ← lift (Index.getitem_row_mask X jz itm);
  c ← lift (Index.getitem_row_mask cashflow jz itm);
  d ← lift (Index.getitem discount_factor jz);
  let y := map (fun ci => fmul ci d) c in
  fit ← invoke (CallFit x y) (fit_func x y args);
  (* EV_cont = pred_func(X[j, itm], fit, ...) *)
  EV_cont ← invoke (CallPredict x) (pred_func x fit args);
  (* exercise = payoff[j, itm] *)
  exercise ← lift (Index.getitem_row_mask payoff jz itm);
  (* stopping_rule[j-1, itm] = exercise > EV_cont *)
  decision ← lift (Index.broadcast2 fgt exercise EV_cont);
  stopping_rule ←
    lift (Index.setitem_row_mask stopping_rule (jz - 1) itm decision);
  (* cashflow[j-1, :] = stopping_rule[j-1, :] * payoff[j, :] *)
  row ← lift (Index.getrow stopping_rule (jz - 1));
  product ←
    lift (Index.broadcast2 (fun b p => fmul (of_bool b) p) row payoff_j);
  cashflow ← lift (Index.setrow N (jz - 1) product cashflow);
  mret (stopping_rule, cashflow).

(** Lines 36-56: the two matrices as they stand when the loop is over,
    before line 59 collapses the stopping rule. *)
Definition lsmc_backward (M : Z) (N : nat) (X payoff : list (list F))
    (discount_factor : list F) (fit_func : fit_fn) (pred_func : pred_fn)
    (args : Params) : comp F matrices :=
  (* np.full((M, N), ...) refuses a negative dimension *)
  _ ← lift (if M <? 0 then Raise ValueError else Ok tt);
  let stopping_rule := replicate (Z.to_nat M) (replicate N false) in
  let cashflow := replicate (Z.to_nat M) (replicate N fnan) in
  (* stopping_rule[M-1:, ] = payoff[M, :] > 0 *)
  payoff_M ← lift (Index.getrow payoff M);
  stopping_rule ← lift (Index.setrows_from N (M - 1)
                          (map (fun p => fgt p fzero) payoff_M) stopping_rule);
  (* cashflow[M-1, :] = payoff[M, :] *)
  cashflow ← lift (Index.setrow N (M - 1) payoff_M cashflow);
  (* for j in range(M-1, 0, -1) *)
  for_each (range_down (Z.to_nat (M - 1)))
           (lsmc_step N X payoff discount_factor fit_func pred_func args)
           (stopping_rule, cashflow).

(** The local variables of [lsmc] when it reaches its [return]. *)
Record locals : Type := Locals {
  stopping_rule : list (list bool);
  cashflow : list (list F);
  discounted : list F;
  price : F
}.

(** Lines 22-63. *)
Definition lsmc_locals (t X : ndarray F) (K r : F) (payoff_func : payoff_fn)
    (type : string) (fit_func : fit_fn) (pred_func : pred_fn) (args : Params)
  : comp F locals :=
  _ ← assert_ (ndim t =? 1)%nat "Time steps must be a 1-dimensional array.";
  _ ← assert_ (ndim X =? 2)%nat
        "The passed simulations `X` mush be a 2-dimensional numpy-array.";
  _ ← assert_ (len X =? len t)%nat
        "The length of the passed simulations `X` and time steps `t` must be of same length.";
  let M := Z.of_nat (len t) - 1 in
  let N := shape1 X in
  let dt := diff (data1 t) in
  let discount_factor := map (fun d => fexp (fmul (fopp r) d)) dt in
  payoff ← invoke (CallPayoff X K type) (payoff_func X K type);
  '(stopping_rule, cashflow) ←
    lsmc_backward M N (data2 X) payoff discount_factor fit_func pred_func args;
  let stopping_rule := Np.collapse stopping_rule in
  let cashflow := mask_mul stopping_rule cashflow in
  let discounted := matvec (transpose N cashflow) (cumprod discount_factor) in
  let price := mean discounted in
  mret (Locals stopping_rule cashflow discounted price).

(** Line 65: only the price is returned. *)
Definition lsmc (t X : ndarray F) (K r : F) (payoff_func : payoff_fn)
    (type : string) (fit_func : fit_fn) (pred_func : pred_fn) (args : Params)
  : comp F F :=
  l ← lsmc_locals t X K r payoff_func type fit_func pred_func args;
  mret (price l).

End Lsmc.

(** ** Vocabulary of the properties *)

Section Vocabulary.
Context {F : Type} `{Scalar F} {Model Params : Type}.

(** The time grid is strictly increasing. *)
Definition strictly_increasing (t : list F) : bool :=
  forallb (fun b : bool => b) (zip_with fgt (tail t) t).

(** The predicted continuation value that the comparison
    [exercise > EV_cont] and the masked assignment pair with path [n]: the
    prediction has one value per in-the-money path, in path order, or one
    value for all of them. *)
Definition paired_value (EV_cont : list F) (itm : list bool) (n : nat)
  : option F :=
  if (length EV_cont =? Index.count_true itm)%nat
  then EV_cont !! Index.count_true (take n itm)
  else EV_cont !! 0%nat.

(** One pass of the loop body at date [j]: from the stopping-rule row
    [row0] found at [j-1] and the cashflow row [cashflow_j] found at [j] it
    calls the estimator and leaves the rows [row] and [cash] at [j-1]. *)
Definition step_rows (N : nat) (X payoff : list (list F))
    (discount_factor : list F) (fit_func : @fit_fn F Model Params)
    (pred_func : @pred_fn F Model Params) (args : Params) (j : nat)
    (row0 : list bool) (cashflow_j : list F)
    (row : list bool) (cash : list F) : Prop :=
  exists payoff_j X_j d fit EV_cont decision vals,
    let itm := (fun p => fgt p fzero) <$> payoff_j in
    let x := Index.compress itm X_j in
    payoff !! j = Some payoff_j /\ length payoff_j = N /\
    X !! j = Some X_j /\ length X_j = N /\
    discount_factor !! j = Some d /\
    fit_func x ((fun c => fmul c d) <$> Index.compress itm cashflow_j) args
      = Ok fit /\
    pred_func x fit args = Ok EV_cont /\
    Index.broadcast2 fgt (Index.compress itm payoff_j) EV_cont = Ok decision /\
    Index.broadcast_to (Index.count_true itm) decision = Ok vals /\
    row = Index.place itm vals row0 /\
    cash = zip_with (fun b p => fmul (of_bool b) p) row payoff_j.

(** The rows of the two matrices for the interior date [j], as the loop
    leaves them. *)
Definition date_rows (N : nat) (X payoff : list (list F))
    (discount_factor : list F) (fit_func : @fit_fn F Model Params)
    (pred_func : @pred_fn F Model Params) (args : Params) (j : nat)
    (st : matrices) : Prop :=
  exists cashflow_j row cash,
    st.2 !! j = Some cashflow_j /\
    st.1 !! (j - 1)%nat = Some row /\
    st.2 !! (j - 1)%nat = Some cash /\
    step_rows N X payoff discount_factor fit_func pred_func args j
              (replicate N false) cashflow_j row cash.

(** Both matrices have [M] rows of [N] entries. *)
Definition shaped (M N : nat) (st : @matrices F) : Prop :=
  length st.1 = M /\ Np.rectangular N st.1 /\
  length st.2 = M /\ Np.rectangular N st.2.

End Vocabulary.

(** ** Sample collaborators and inputs *)

Module Demo.

(** A stand-in for the C library's [exp], to run the binary64 instance: the
    Taylor polynomial of degree [k], in Horner form. *)
Fixpoint exp_horner (k : nat) (i x : float) : float :=
  match k with
  | O => 1%float
  | S k' => (1 + x / i * exp_horner k' (i + 1) x)%float
  end.

Definition exp_taylor (x : float) : float := exp_horner 24 1%float x.

#[global] Instance binary64 : Scalar float := Binary64.scalar exp_taylor.

(** The payoff of a put, [max(K - x, 0)] at every entry. *)
Definition put_payoff {F} `{Scalar F} (X : ndarray F) (K : F) (type : string)
  : result (list (list F)) :=
  Ok (map (map (fun x => if fgt (fsub K x) fzero then fsub K x else fzero))
          (data2 X)).

(** The simplest estimator: the fitted model is the mean of the targets
    and predicts it for every path. *)
Definition fit_mean {F} `{Scalar F} (x y : list F) (_ : unit) : result F :=
  Ok (mean y).

Definition pred_mean {F} `{Scalar F} (x : list F) (fit : F) (_ : unit)
  : result (list F) :=
  Ok (replicate (length x) fit).

(** Four dates, three paths. *)
Definition t4 : ndarray float := Arr1 [0; 1; 2; 3]%float.
Definition X4 : ndarray float :=
  Arr2 3 [[40; 40; 40]; [30; 45; 38]; [36; 38; 39]; [36; 42; 39]]%float.

Definition run4 : comp float locals :=
  lsmc_locals t4 X4 40%float 0%float put_payoff "PUT" fit_mean pred_mean tt.

(** What [run4] evaluates to. *)
Definition trace4 : list (call float) :=
  [CallPayoff X4 40%float "PUT";
   CallFit [36; 38; 39]%float [4; 0; 1]%float;
   CallPredict [36; 38; 39]%float;
   CallFit [30; 38]%float [4; 0]%float;
   CallPredict [30; 38]%float].

Definition locals4 : locals :=
  Locals [[true; false; false]; [false; true; false]; [false; false; true]]
         [[10; 0; 0]; [0; 2; 0]; [0; 0; 1]]%float
         [10; 2; 1]%float
         (13 / 3)%float.

(** The backward loop of [run4], on its own. *)
Definition payoff4 : list (list float) :=
  [[0; 0; 0]; [10; 0; 2]; [4; 2; 1]; [4; 0; 1]]%float.

Definition backward4 : comp float matrices :=
  lsmc_backward 3 3 (data2 X4) payoff4 [1; 1; 1]%float
                fit_mean pred_mean tt.

Definition matrices4 : @matrices float :=
  ([[true; false; false]; [true; true; false]; [true; false; true]],
   [[10; 0; 0]; [4; 2; 0]; [4; 0; 1]]%float).

(** A time grid that decreases, and one that has a single date. *)
Definition run_decreasing : comp float float :=
  lsmc (Arr1 [1; 0]%float) (Arr2 1 [[40]; [30]]%float) 40%float 0%float
       put_payoff "PUT" fit_mean pred_mean tt.

Definition run_single_date : comp float float :=
  lsmc (Arr1 [0]%float) (Arr2 1 [[40]]%float) 40%float 0%float
       put_payoff "PUT" fit_mean pred_mean tt.

(** Two price matrices whose paths are swapped. *)
Definition X_left : ndarray float := Arr2 2 [[40; 40]; [30; 45]]%float.
Definition X_right : ndarray float := Arr2 2 [[40; 40]; [45; 30]]%float.

Definition locals_of (X : ndarray float) : comp float locals :=
  lsmc_locals (Arr1 [0; 1]%float) X 40%float 0%float
              put_payoff "PUT" fit_mean pred_mean tt.

Definition price_of (X : ndarray float) : comp float float :=
  lsmc (Arr1 [0; 1]%float) X 40%float 0%float
       put_payoff "PUT" fit_mean pred_mean tt.

(** The scenario of the specification, in exact arithmetic: two dates,
    three paths, strike 40. *)
Definition t2 : ndarray Rnan := Arr1 [Fin 0; Fin 1].
Definition X2 : ndarray Rnan :=
  Arr2 3 [[Fin 40; Fin 40; Fin 40]; [Fin 30; Fin 45; Fin 38]].
Definition payoff2 : list (list Rnan) :=
  [[Fin 0; Fin 0; Fin 0]; [Fin 10; Fin 0; Fin 2]].

End Demo.

(** ** [np.exp] at its limits *)

Module Ieee.

(** [np.exp] on binary64, as far as every C library fixes it: NaN on NaN,
    [+inf] from 710 on (the largest double is below [e^709.79]) and 0 from
    -746 down (the smallest positive double is above [e^-745.14]).
    Between the two thresholds the polynomial of [Demo] stands in; it is
    exact at 0, where [np.exp] is 1. *)
Definition exp_clamped (x : float) : float :=
  if PrimFloat.is_nan x then PrimFloat.nan
  else if (710 <=? x)%float then PrimFloat.infinity
  else if (x <=? -746)%float then 0%float
  else Demo.exp_taylor x.

End Ieee.

(** ** Outcomes the specification names *)

(** A value of the real instance that is a number. *)
Definition finite (a : Rnan) : Prop :=
  match a with
  | Fin _ => True
  | NaN => False
  end.

(** The run stops at an assertion, before any collaborator is called. *)
Definition rejected_at_start {F A} (run : comp F A) : Prop :=
  exists msg, run = ([], Raise (AssertionError msg)).

(** ** The estimator calls of a run *)

Section Calls.
Context {F : Type} `{Scalar F}.

(** The two estimator calls of the pass at date [j], read off the arrays
    the pass indexes: the fit on the prices and the discounted cashflows of
    the paths in the money at [j], then the prediction on the same
    prices. *)
Definition date_calls (X payoff : list (list F)) (discount_factor : list F)
    (cashflow : list (list F)) (j : nat) : list (call F) :=
  match payoff !! j, X !! j, cashflow !! j, discount_factor !! j with
  | Some payoff_j, Some X_j, Some cashflow_j, Some d =>
      let itm := map (fun p => fgt p fzero) payoff_j in
      let x := Index.compress itm X_j in
      [CallFit x (map (fun c => fmul c d) (Index.compress itm cashflow_j));
       CallPredict x]
  | _, _, _, _ => []
  end.

End Calls.

(** * Properties *)

(** ** The double cumulative sum *)

Section Collapse.
Import Np.

Lemma cumsum_from_length a l : length (cumsum_from a l) = length l.
Proof. revert a. induction l as [|x l IH]; intros a; simpl; [done|]. by rewrite IH. Qed.

(** Once one [true] has been counted, the double sum is 2 or more. *)
Lemma cumsum2_after_first s a (bs : list bool) i z :
  1 <= s -> 1 <= a ->
  cumsum_from a (cumsum_from s (Z.b2z <$> bs)) !! i = Some z -> 2 <= z.
Proof.
  revert s a i. induction bs as [|b bs IH]; intros s a i Hs Ha; simpl; [done|].
  destruct i as [|i]; simpl.
  - intros [= <-]. destruct b; simpl; lia.
  - apply IH; destruct b; simpl; lia.
Qed.

(** In one column, the double sum is 1 exactly at the first [true]. *)
Lemma cumsum2_first (bs : list bool) i z :
  cumsum (cumsum (Z.b2z <$> bs)) !! i = Some z ->
  (z =? 1) = bool_decide (fst <$> list_find (eq true) bs = Some i).
Proof.
  unfold cumsum. revert i. induction bs as [|b bs IH]; intros i; simpl; [done|].
  destruct b; simpl.
  - destruct i as [|i]; simpl.
    + by intros [= <-].
    + intros Hz. apply cumsum2_after_first in Hz; [|lia..]. lia.
  - destruct i as [|i]; simpl.
    + intros [= <-]. rewrite bool_decide_eq_false_2; [done|].
      destruct (list_find _ bs) as [[??]|]; simpl; congruence.
    + intros Hz. rewrite (IH _ Hz).
      apply bool_decide_ext.
      destruct (list_find _ bs) as [[??]|]; simpl; naive_solver.
Qed.

Lemma cumsum_rows_from_length acc rows :
  length (cumsum_rows_from acc rows) = length rows.
Proof.
  revert acc. induction rows as [|r rows IH]; intros acc; simpl; [done|].
  by rewrite IH.
Qed.

Lemma cumsum_axis0_length m : length (cumsum_axis0 m) = length m.
Proof. destruct m; simpl; [done|]. by rewrite cumsum_rows_from_length. Qed.

Lemma cumsum_rows_from_rect N acc rows :
  length acc = N -> rectangular N rows ->
  rectangular N (cumsum_rows_from acc rows).
Proof.
  revert acc. induction rows as [|r rows IH]; intros acc Hacc Hrows; simpl.
  { constructor. }
  apply Forall_cons in Hrows as [Hr Hrows].
  assert (length (zip_with Z.add acc r) = N) as Hlen
    by (rewrite length_zip_with_l_eq; congruence).
  constructor; [exact Hlen|]. by apply IH.
Qed.

Lemma cumsum_axis0_rect N m : rectangular N m -> rectangular N (cumsum_axis0 m).
Proof.
  destruct m as [|r rows]; simpl; [done|].
  intros [Hr Hrows]%Forall_cons. constructor; [done|].
  by apply cumsum_rows_from_rect.
Qed.

(** Column [n] of the running sum of the rows is the running sum of
    column [n]. *)
Lemma cumsum_rows_from_col N acc rows n :
  length acc = N -> rectangular N rows -> (n < N)%nat ->
  (fun row => default 0 (row !! n)) <$> cumsum_rows_from acc rows
  = cumsum_from (default 0 (acc !! n))
                ((fun row => default 0 (row !! n)) <$> rows).
Proof.
  revert acc. induction rows as [|r rows IH]; intros acc Hacc Hrows Hn; [done|].
  apply Forall_cons in Hrows as [Hr Hrows]. simpl.
  assert (length (zip_with Z.add acc r) = N) as Hlen
    by (rewrite length_zip_with_l_eq; congruence).
  assert (default 0 (zip_with Z.add acc r !! n)
          = default 0 (acc !! n) + default 0 (r !! n)) as Hsum.
  { rewrite lookup_zip_with.
    destruct (lookup_lt_is_Some_2 acc n) as [a ->]; [lia|].
    destruct (lookup_lt_is_Some_2 r n) as [x ->]; [lia|]. done. }
  rewrite IH, Hsum; [done..|lia].
Qed.

Lemma cumsum_axis0_col N m n :
  rectangular N m -> (n < N)%nat ->
  (fun row => default 0 (row !! n)) <$> cumsum_axis0 m
  = cumsum ((fun row => default 0 (row !! n)) <$> m).
Proof.
  destruct m as [|r rows]; [done|]. intros [Hr Hrows]%Forall_cons Hn.
  unfold cumsum. simpl. by erewrite cumsum_rows_from_col.
Qed.

Lemma entry_column {A} (d : A) N (m : list (list A)) i n :
  rectangular N m -> (n < N)%nat ->
  entry m i n = ((fun row => default d (row !! n)) <$> m) !! i.
Proof.
  intros Hm Hn. unfold entry. rewrite list_lookup_fmap.
  destruct (m !! i) as [row|] eqn:Hrow; simpl; [|done].
  assert (length row = N) as Hlen
    by exact (proj1 (Forall_lookup _ _) Hm _ _ Hrow).
  destruct (lookup_lt_is_Some_2 row n) as [x ->]; [lia|]. done.
Qed.

Lemma astype_int_rect N m : rectangular N m -> rectangular N (astype_int m).
Proof.
  unfold rectangular, astype_int. rewrite Forall_fmap. intros Hm.
  eapply Forall_impl; [exact Hm|]. intros row <-. simpl. by rewrite length_fmap.
Qed.

Lemma collapse_length m : length (collapse m) = length m.
Proof.
  unfold collapse, eq_one, astype_int.
  by rewrite length_fmap, !cumsum_axis0_length, length_fmap.
Qed.

Lemma collapse_rect N m : rectangular N m -> rectangular N (collapse m).
Proof.
  intros Hm. unfold collapse, eq_one, rectangular. rewrite Forall_fmap.
  eapply Forall_impl; [apply cumsum_axis0_rect, cumsum_axis0_rect,
                         astype_int_rect, Hm|].
  intros row <-. simpl. by rewrite length_fmap.
Qed.

(** Entry [(i, n)] of the collapsed matrix tells whether [i] is the index
    of the first [true] of column [n]. *)
Lemma collapse_entry N m i n :
  rectangular N m -> (i < length m)%nat -> (n < N)%nat ->
  entry (collapse m) i n
  = Some (bool_decide (Scan.first_true_index m n = Some i)).
Proof.
  intros Hm Hi Hn.
  pose proof (astype_int_rect _ _ Hm) as Hz.
  pose proof (cumsum_axis0_rect _ _ Hz) as Hz1.
  pose proof (cumsum_axis0_rect _ _ Hz1) as Hz2.
  assert (entry (collapse m) i n
          = (fun z => z =? 1)
              <$> entry (cumsum_axis0 (cumsum_axis0 (astype_int m))) i n) as ->.
  { unfold collapse, eq_one, entry. rewrite list_lookup_fmap.
    destruct (_ !! i) as [row|]; simpl; [|done].
    by rewrite list_lookup_fmap. }
  rewrite (entry_column 0 N) by done.
  rewrite (cumsum_axis0_col N), (cumsum_axis0_col N) by done.
  assert ((fun row => default 0 (row !! n)) <$> astype_int m
          = Z.b2z <$> ((fun row => default false (row !! n)) <$> m)) as ->.
  { unfold astype_int. rewrite <- !list_fmap_compose.
    apply list_fmap_ext. intros _ row _. simpl. rewrite list_lookup_fmap.
    by destruct (row !! n). }
  destruct (lookup_lt_is_Some_2
              (cumsum (cumsum (Z.b2z <$> ((fun row => default false (row !! n)) <$> m)))) i)
    as [z Hz'].
  { unfold cumsum. by rewrite !cumsum_from_length, !length_fmap. }
  rewrite Hz'. simpl. f_equal. rewrite (cumsum2_first _ _ _ Hz').
  apply bool_decide_ext. unfold Scan.first_true_index.
  rewrite list_find_fmap.
  rewrite (list_find_ext _ (fun row => row !! n = Some true)).
  { by destruct (list_find _ m) as [[??]|]. }
  intros row. simpl.
  destruct (row !! n) as [[]|]; simpl; naive_solver.
Qed.

Lemma matrix_eq {A} N (m1 m2 : list (list A)) :
  length m1 = length m2 -> rectangular N m1 -> rectangular N m2 ->
  (forall i n, (i < length m1)%nat -> (n < N)%nat ->
               entry m1 i n = entry m2 i n) ->
  m1 = m2.
Proof.
  intros Hlen H1 H2 Hentry. apply list_eq. intros i.
  destruct (decide (i < length m1)%nat) as [Hi|Hi].
  - destruct (lookup_lt_is_Some_2 m1 i Hi) as [r1 Hr1].
    destruct (lookup_lt_is_Some_2 m2 i) as [r2 Hr2]; [lia|].
    rewrite Hr1, Hr2. f_equal.
    pose proof (proj1 (Forall_lookup _ _) H1 _ _ Hr1) as Hl1.
    pose proof (proj1 (Forall_lookup _ _) H2 _ _ Hr2) as Hl2.
    simpl in Hl1, Hl2. apply list_eq. intros n.
    destruct (decide (n < N)%nat) as [Hn|Hn].
    + specialize (Hentry i n Hi Hn). unfold entry in Hentry.
      by rewrite Hr1, Hr2 in Hentry.
    + rewrite (lookup_ge_None_2 r1), (lookup_ge_None_2 r2); [done|lia..].
  - rewrite (lookup_ge_None_2 m1), (lookup_ge_None_2 m2); [done|lia..].
Qed.

Lemma keep_first_true_rect N m :
  rectangular N m -> rectangular N (Scan.keep_first_true m).
Proof.
  intros Hm. apply Forall_lookup. intros i row'.
  unfold Scan.keep_first_true. rewrite list_lookup_imap.
  destruct (m !! i) as [row|] eqn:Hrow; simpl; [|done].
  intros [= <-]. rewrite length_imap.
  exact (proj1 (Forall_lookup _ _) Hm _ _ Hrow).
Qed.

Lemma keep_first_true_entry N m i n :
  rectangular N m -> (i < length m)%nat -> (n < N)%nat ->
  entry (Scan.keep_first_true m) i n
  = Some (bool_decide (Scan.first_true_index m n = Some i)).
Proof.
  intros Hm Hi Hn. unfold entry, Scan.keep_first_true.
  rewrite list_lookup_imap.
  destruct (lookup_lt_is_Some_2 m i Hi) as [row Hrow]. rewrite Hrow. simpl.
  rewrite list_lookup_imap.
  pose proof (proj1 (Forall_lookup _ _) Hm _ _ Hrow) as Hlen. simpl in Hlen.
  destruct (lookup_lt_is_Some_2 row n) as [b ->]; [lia|]. done.
Qed.

(** In a rectangular matrix, [i] is the first-true index of column [n]
    when entry [(i, n)] is true and the entries above it are false. *)
Lemma first_true_index_Some N (m : list (list bool)) i n :
  rectangular N m -> (n < N)%nat ->
  Scan.first_true_index m n = Some i <->
  entry m i n = Some true /\
  forall k, (k < i)%nat -> entry m k n = Some false.
Proof.
  intros Hm Hn. unfold Scan.first_true_index, entry. split.
  - intros Hfind.
    destruct (list_find _ m) as [[i' row]|] eqn:Hf; simplify_eq/=.
    apply list_find_Some in Hf as (Hrow & Htrue & Hbefore).
    rewrite Hrow. split; [done|]. intros k Hk.
    destruct (lookup_lt_is_Some_2 m k) as [rk Hrk].
    { apply lookup_lt_Some in Hrow. lia. }
    rewrite Hrk. simpl.
    pose proof (proj1 (Forall_lookup _ _) Hm _ _ Hrk) as Hlen. simpl in Hlen.
    destruct (lookup_lt_is_Some_2 rk n) as [b Hb]; [lia|].
    destruct b; [|done]. by destruct (Hbefore k rk).
  - intros [Htrue Hbefore].
    destruct (m !! i) as [row|] eqn:Hrow; simplify_eq/=.
    rewrite (proj2 (list_find_Some _ m i row)); [done|].
    split_and!; [done..|]. intros j y Hy Hj Hyn.
    specialize (Hbefore j Hj). rewrite Hy in Hbefore. simpl in Hbefore.
    congruence.
Qed.

Lemma count_true_cons b bs :
  Index.count_true (b :: bs)
  = ((if b then 1 else 0) + Index.count_true bs)%nat.
Proof.
  unfold Index.count_true. destruct b.
  - rewrite filter_cons_True; [done|exact I].
  - rewrite filter_cons_False; [done|intros []].
Qed.

Lemma count_true_none (bs : list bool) :
  (forall j, bs !! j <> Some true) -> Index.count_true bs = 0%nat.
Proof.
  induction bs as [|b bs IH]; intros Hnone; [done|].
  rewrite count_true_cons, IH.
  - destruct b; [|done]. by destruct (Hnone 0%nat).
  - intros j. apply (Hnone (S j)).
Qed.

(** A boolean list whose [true] positions all coincide has at most one. *)
Lemma count_true_le_1 (bs : list bool) :
  (forall i j, bs !! i = Some true -> bs !! j = Some true -> i = j) ->
  (Index.count_true bs <= 1)%nat.
Proof.
  induction bs as [|b bs IH]; intros Huniq; [unfold Index.count_true; simpl; lia|].
  rewrite count_true_cons. destruct b.
  - rewrite count_true_none; [lia|]. intros j Hj.
    by specialize (Huniq 0%nat (S j) eq_refl Hj).
  - simpl. apply IH. intros i j Hi Hj.
    specialize (Huniq (S i) (S j) Hi Hj). lia.
Qed.

End Collapse.

(** ** Sums in 64-bit integers *)

Section Int64.
Import Np.

Lemma wrap64_small z : - 2 ^ 63 <= z < 2 ^ 63 -> wrap64 z = z.
Proof. intros Hz. unfold wrap64. rewrite Z.mod_small; lia. Qed.

Lemma zip_add64 A B (acc r : list Z) :
  Forall (fun z => 0 <= z <= A) acc -> Forall (fun z => 0 <= z <= B) r ->
  A + B < 2 ^ 63 ->
  zip_with add64 acc r = zip_with Z.add acc r /\
  Forall (fun z => 0 <= z <= A + B) (zip_with Z.add acc r).
Proof.
  intros Hacc. revert r. induction Hacc as [|a acc Ha _ IH]; intros r Hr Hsum.
  { by split. }
  destruct Hr as [|x r Hx Hr]; [by split|]. simpl.
  destruct (IH r Hr Hsum) as [-> Hbound]. split.
  - unfold add64. rewrite wrap64_small; [done|lia].
  - constructor; [lia|done].
Qed.

Lemma cumsum_rows_from_int64_exact A B acc rows :
  Forall (fun z => 0 <= z <= A) acc ->
  Forall (Forall (fun z => 0 <= z <= B)) rows ->
  0 <= B -> A + Z.of_nat (length rows) * B < 2 ^ 63 ->
  cumsum_rows_from_int64 acc rows = cumsum_rows_from acc rows /\
  Forall (Forall (fun z => 0 <= z <= A + Z.of_nat (length rows) * B))
         (cumsum_rows_from acc rows).
Proof.
  intros Hacc Hrows HB. revert A acc Hacc.
  induction Hrows as [|r rows Hr _ IH]; intros A acc Hacc Hsum; simpl.
  { by split. }
  simpl length in Hsum. rewrite Nat2Z.inj_succ in *.
  destruct (zip_add64 A B acc r Hacc Hr) as [-> Hbound]; [nia|].
  destruct (IH (A + B) (zip_with Z.add acc r) Hbound) as [-> Hrest]; [nia|].
  split; [done|]. constructor.
  - eapply Forall_impl; [exact Hbound|]. simpl. intros z Hz. nia.
  - eapply Forall_impl; [exact Hrest|]. simpl. intros row Hrow.
    eapply Forall_impl; [exact Hrow|]. simpl. intros z Hz. nia.
Qed.

Lemma cumsum_axis0_int64_exact B m :
  Forall (Forall (fun z => 0 <= z <= B)) m ->
  0 <= B -> Z.of_nat (length m) * B < 2 ^ 63 ->
  cumsum_axis0_int64 m = cumsum_axis0 m /\
  Forall (Forall (fun z => 0 <= z <= Z.of_nat (length m) * B))
         (cumsum_axis0 m).
Proof.
  intros Hm HB Hsum. destruct Hm as [|r rows Hr Hrows]; simpl.
  { by split. }
  simpl length in Hsum. rewrite Nat2Z.inj_succ in *.
  destruct (cumsum_rows_from_int64_exact B B r rows Hr Hrows HB) as [-> Hrest];
    [nia|].
  split; [done|]. constructor.
  - eapply Forall_impl; [exact Hr|]. simpl. intros z Hz. nia.
  - eapply Forall_impl; [exact Hrest|]. simpl. intros row Hrow.
    eapply Forall_impl; [exact Hrow|]. simpl. intros z Hz. nia.
Qed.

(** X13: on fewer than 2^31 rows the 64-bit sums of line 59 do not wrap:
    the collapsed stopping rule computed with numpy's 64-bit integers is
    the one computed with unbounded integers. *)
Lemma collapse_int64_exact (m : list (list bool)) :
  Z.of_nat (length m) < 2 ^ 31 -> collapse_int64 m = collapse m.
Proof.
  intros Hlen. unfold collapse_int64, collapse.
  assert (Forall (Forall (fun z => 0 <= z <= 1)) (astype_int m)) as Hbits.
  { unfold astype_int. apply Forall_fmap, Forall_true. intros row. simpl.
    apply Forall_fmap, Forall_true. intros []; simpl; lia. }
  assert (length (astype_int m) = length m) as Hlen'
    by (unfold astype_int; by rewrite length_fmap).
  destruct (cumsum_axis0_int64_exact 1 (astype_int m) Hbits) as [-> Hfirst];
    [lia|rewrite Hlen'; lia|].
  rewrite Hlen' in Hfirst.
  destruct (cumsum_axis0_int64_exact (Z.of_nat (length m) * 1)
              (cumsum_axis0 (astype_int m)) Hfirst) as [-> _]; [lia| |done].
  rewrite cumsum_axis0_length, Hlen'. nia.
Qed.

End Int64.

(** ** The error monads *)

Section Monads.
Context {F : Type}.

Lemma result_bind_Ok {A B} (r : result A) (k : A -> result B) b :
  r ≫= k = Ok b -> exists a, r = Ok a /\ k a = Ok b.
Proof. destruct r as [a|e]; simpl; [eauto|discriminate]. Qed.

Lemma bind_Ok {A B} (m : comp F A) (k : A -> comp F B) tr b :
  m ≫= k = (tr, Ok b) ->
  exists a tr1 tr2, m = (tr1, Ok a) /\ k a = (tr2, Ok b) /\ tr = tr1 ++ tr2.
Proof.
  destruct m as [tr1 [a|e]]; unfold mbind, comp_bind; [|discriminate].
  destruct (k a) as [tr2 r] eqn:Hk. intros [= <- ->]. eauto 6.
Qed.

Lemma bind_lift_Ok {A B} (r : result A) (k : A -> comp F B) tr b :
  lift r ≫= k = (tr, Ok b) -> exists a, r = Ok a /\ k a = (tr, Ok b).
Proof.
  intros (a & tr1 & tr2 & Hr & Hk & ->)%bind_Ok.
  injection Hr as <- ->. eauto.
Qed.

Lemma bind_invoke_Ok {A B} c (r : result A) (k : A -> comp F B) tr b :
  invoke c r ≫= k = (tr, Ok b) ->
  exists a tr', r = Ok a /\ k a = (tr', Ok b) /\ tr = c :: tr'.
Proof.
  intros (a & tr1 & tr2 & Hr & Hk & ->)%bind_Ok.
  injection Hr as <- ->. eauto.
Qed.

Lemma bind_lift_mret_Ok {A B} (r : result A) (f : A -> B) tr b :
  (a ← lift r; mret (f a) : comp F B) = (tr, Ok b) ->
  exists a, r = Ok a /\ b = f a /\ tr = [].
Proof.
  intros (a & Hr & Hk)%bind_lift_Ok. injection Hk as <- <-. eauto.
Qed.

Lemma bind_lift_eq {A B} (r : result A) (k : A -> comp F B) a :
  r = Ok a -> lift r ≫= k = k a.
Proof. intros ->. unfold mbind, comp_bind, lift. by destruct (k a). Qed.

Lemma bind_invoke_eq {A B} c (r : result A) (k : A -> comp F B) a tr b :
  r = Ok a -> k a = (tr, b) -> invoke c r ≫= k = (c :: tr, b).
Proof. intros -> Hk. unfold mbind, comp_bind, invoke. by rewrite Hk. Qed.

Lemma for_each_ext {S J} (js : list J) (f g : J -> S -> comp F S) s :
  (forall j s', f j s' = g j s') -> for_each js f s = for_each js g s.
Proof.
  intros Hfg. revert s. induction js as [|j js IH]; intros s; simpl; [done|].
  rewrite Hfg. destruct (g j s) as [tr [s'|e]]; unfold mbind, comp_bind; [|done].
  by rewrite IH.
Qed.

End Monads.

(** ** Indexing *)

Section IndexLemmas.
Import Index.
Context {A : Type}.
Implicit Types (v : list A) (m : list (list A)) (mask : list bool).

Lemma norm_index_nat k n :
  (k < n)%nat -> norm_index (Z.of_nat k) n = Ok k.
Proof.
  intros Hk. unfold norm_index.
  destruct (Z.ltb_spec (Z.of_nat k) 0); [lia|].
  destruct (Z.leb_spec 0 (Z.of_nat k)); [|lia].
  destruct (Z.ltb_spec (Z.of_nat k) (Z.of_nat n)); [|lia].
  simpl. by rewrite Nat2Z.id.
Qed.

Lemma norm_index_Ok i n k :
  norm_index i n = Ok k ->
  (k < n)%nat /\ (0 <= i -> i = Z.of_nat k) /\ (i < 0 -> i + Z.of_nat n = Z.of_nat k).
Proof.
  unfold norm_index. destruct (Z.ltb_spec i 0).
  - destruct (Z.leb_spec 0 (i + Z.of_nat n)); simpl; [|discriminate].
    destruct (Z.ltb_spec (i + Z.of_nat n) (Z.of_nat n)); [|discriminate].
    intros [= <-]. lia.
  - destruct (Z.leb_spec 0 i); simpl; [|discriminate].
    destruct (Z.ltb_spec i (Z.of_nat n)); [|discriminate].
    intros [= <-]. lia.
Qed.

Lemma getrow_nat m k row :
  getrow m (Z.of_nat k) = Ok row <-> m !! k = Some row.
Proof.
  unfold getrow. split.
  - intros (k' & Hk' & Hrow)%result_bind_Ok.
    apply norm_index_Ok in Hk' as (_ & Hk' & _).
    assert (k' = k) as -> by lia.
    destruct (m !! k); by simplify_eq.
  - intros Hrow. rewrite norm_index_nat by (by eapply lookup_lt_Some).
    simpl. by rewrite Hrow.
Qed.

Lemma getitem_nat v k x :
  getitem v (Z.of_nat k) = Ok x <-> v !! k = Some x.
Proof.
  unfold getitem. split.
  - intros (k' & Hk' & Hx)%result_bind_Ok.
    apply norm_index_Ok in Hk' as (_ & Hk' & _).
    assert (k' = k) as -> by lia.
    destruct (v !! k); by simplify_eq.
  - intros Hx. rewrite norm_index_nat by (by eapply lookup_lt_Some).
    simpl. by rewrite Hx.
Qed.

Lemma broadcast_to_length N v v' :
  broadcast_to N v = Ok v' -> length v' = N.
Proof.
  unfold broadcast_to. destruct (Nat.eqb_spec (length v) N).
  - by intros [= <-].
  - destruct v as [|x [|??]]; intros [=]; subst. apply length_replicate.
Qed.

Lemma broadcast_to_same N v : length v = N -> broadcast_to N v = Ok v.
Proof. intros <-. unfold broadcast_to. by rewrite Nat.eqb_refl. Qed.

(** Whatever the broadcast, entry [n] of the source is entry [n] of the
    result. *)
Lemma broadcast_to_lookup N v v' n x :
  broadcast_to N v = Ok v' -> (n < N)%nat -> v !! n = Some x ->
  v' !! n = Some x.
Proof.
  unfold broadcast_to. destruct (Nat.eqb_spec (length v) N).
  - by intros [= <-].
  - destruct v as [|y [|??]]; intros [=] Hn Hx; subst.
    destruct n; simplify_eq/=. by apply lookup_replicate_2.
Qed.

Lemma length_compress mask v :
  length mask = length v -> length (compress mask v) = count_true mask.
Proof.
  revert v. induction mask as [|b mask IH]; intros [|x v] Hlen;
    simplify_eq/=; [done|].
  rewrite count_true_cons. destruct b; simpl; by rewrite IH.
Qed.

Lemma length_place mask vals v : length (place mask vals v) = length v.
Proof.
  revert vals v. induction mask as [|b mask IH]; intros vals v.
  { by destruct v. }
  destruct v as [|x v]; [by destruct b|].
  destruct b; simpl; [destruct vals|]; simpl; by rewrite IH.
Qed.

(** Where the mask is false, a masked assignment leaves the entry. *)
Lemma place_lookup_false mask vals v n :
  mask !! n = Some false -> place mask vals v !! n = v !! n.
Proof.
  revert vals v n. induction mask as [|b mask IH]; intros vals v n Hn.
  { done. }
  destruct v as [|x v]; [by destruct b|].
  destruct n as [|n]; simplify_eq/=; [done|].
  destruct b; [destruct vals|]; simpl; by apply IH.
Qed.

(** Where the mask is true, it writes the value whose position is the
    number of true entries before. *)
Lemma place_lookup_true mask vals v n :
  length mask = length v -> length vals = count_true mask ->
  mask !! n = Some true ->
  place mask vals v !! n = vals !! count_true (take n mask).
Proof.
  revert vals v n. induction mask as [|b mask IH]; intros vals [|x v] n Hlen Hvals Hn;
    simplify_eq/=.
  rewrite count_true_cons in Hvals.
  destruct n as [|n]; simplify_eq/=.
  { by destruct vals. }
  rewrite count_true_cons. destruct b; simpl.
  - destruct vals as [|y vals]; simplify_eq/=. by apply IH.
  - by apply IH.
Qed.

Lemma compress_lookup mask v n x :
  mask !! n = Some true -> v !! n = Some x ->
  compress mask v !! count_true (take n mask) = Some x.
Proof.
  revert v n. induction mask as [|b mask IH]; intros [|y v] n Hn Hx;
    simplify_eq/=.
  destruct n as [|n]; simplify_eq/=; [done|].
  rewrite count_true_cons. destruct b; simpl; by apply IH.
Qed.

End IndexLemmas.

Section IndexRows.
Import Index.
Context {A : Type}.
Implicit Types (v : list A) (m : list (list A)) (mask : list bool).

Lemma getitem_row_mask_nat m k mask x :
  getitem_row_mask m (Z.of_nat k) mask = Ok x <->
  exists row, m !! k = Some row /\ length mask = length row /\
              x = compress mask row.
Proof.
  unfold getitem_row_mask, getitem_mask. split.
  - intros (row & Hrow%getrow_nat & Hx)%result_bind_Ok.
    destruct (Nat.eqb_spec (length mask) (length row)); simplify_eq. eauto.
  - intros (row & Hrow%getrow_nat & Hlen & ->). rewrite Hrow. simpl.
    by rewrite Hlen, Nat.eqb_refl.
Qed.

Lemma setitem_row_mask_nat m k mask vals m' :
  setitem_row_mask m (Z.of_nat k) mask vals = Ok m' <->
  exists row vals', m !! k = Some row /\ length mask = length row /\
    broadcast_to (count_true mask) vals = Ok vals' /\
    m' = <[k := place mask vals' row]> m.
Proof.
  unfold setitem_row_mask, setitem_mask. split.
  - intros (k' & Hk' & Hm)%result_bind_Ok.
    apply norm_index_Ok in Hk' as (_ & Hk' & _).
    assert (k' = k) as -> by lia.
    apply result_bind_Ok in Hm as (row & Hrow%getrow_nat & Hm).
    apply result_bind_Ok in Hm as (row' & Hrow' & Hm).
    destruct (Nat.eqb_spec (length mask) (length row)); simplify_eq.
    apply result_bind_Ok in Hrow' as (vals' & Hvals & Hrow').
    simplify_eq. eauto 6.
  - intros (row & vals' & Hrow & Hlen & Hvals & ->).
    rewrite norm_index_nat by (by eapply lookup_lt_Some). simpl.
    rewrite (proj2 (getrow_nat m k row) Hrow). simpl.
    rewrite Hlen, Nat.eqb_refl, Hvals. done.
Qed.

Lemma setrow_nat N m k v m' :
  setrow N (Z.of_nat k) v m = Ok m' <->
  (k < length m)%nat /\
  exists row, broadcast_to N v = Ok row /\ m' = <[k := row]> m.
Proof.
  unfold setrow. split.
  - intros (k' & Hk' & Hm)%result_bind_Ok.
    apply norm_index_Ok in Hk' as (Hlt & Hk' & _).
    assert (k' = k) as -> by lia.
    apply result_bind_Ok in Hm as (row & Hrow & Hm). simplify_eq. eauto.
  - intros (Hk & row & Hrow & ->).
    rewrite norm_index_nat by done. simpl. by rewrite Hrow.
Qed.

Lemma broadcast2_same {B C} (f : A -> B -> C) (a : list A) (b : list B) :
  length a = length b -> broadcast2 f a b = Ok (zip_with f a b).
Proof. intros Hlen. unfold broadcast2. by rewrite Hlen, Nat.eqb_refl. Qed.

Lemma insert_rect N m k row :
  Np.rectangular N m -> length row = N -> Np.rectangular N (<[k := row]> m).
Proof. intros Hm Hrow. by apply Forall_insert. Qed.

End IndexRows.

(** ** The backward loop *)

Section Backward.
Context {F : Type} `{Scalar F} {Model Params : Type}.
Context (N : nat) (X payoff : list (list F)) (discount_factor : list F)
        (fit_func : @fit_fn F Model Params)
        (pred_func : @pred_fn F Model Params) (args : Params).


(** One pass of the body rewrites row [j-1] of both matrices, from row
    [j] of the cashflow matrix. *)
Lemma lsmc_step_Ok M j (st st' : matrices) tr :
  shaped M N st -> (1 <= j < M)%nat ->
  lsmc_step N X payoff discount_factor fit_func pred_func args j st = (tr, Ok st') ->
  exists row0 cashflow_j row cash,
    st.1 !! (j - 1)%nat = Some row0 /\ st.2 !! j = Some cashflow_j /\
    step_rows N X payoff discount_factor fit_func pred_func args j row0 cashflow_j row cash /\
    st' = (<[(j - 1)%nat := row]> st.1, <[(j - 1)%nat := cash]> st.2).
Proof.
  destruct st as [sr cf]. intros (Hsr & Hsr_rect & Hcf & Hcf_rect) Hj Hstep.
  simpl in *. unfold lsmc_step in Hstep.
  replace (Z.of_nat j - 1) with (Z.of_nat (j - 1)) in Hstep by lia.
  apply bind_lift_Ok in Hstep as (payoff_j & Hpj%getrow_nat & Hstep).
  apply bind_lift_Ok in Hstep
    as (x & (X_j & HXj & HlenX & ->)%getitem_row_mask_nat & Hstep).
  apply bind_lift_Ok in Hstep
    as (c & (cf_j & Hcfj & Hlenc & ->)%getitem_row_mask_nat & Hstep).
  apply bind_lift_Ok in Hstep as (d & Hd%getitem_nat & Hstep).
  apply bind_invoke_Ok in Hstep as (fit & tr1 & Hfit & Hstep & ->).
  apply bind_invoke_Ok in Hstep as (EV & tr2 & Hpred & Hstep & ->).
  apply bind_lift_Ok in Hstep
    as (ex & (pj' & Hpj' & _ & ->)%getitem_row_mask_nat & Hstep).
  assert (pj' = payoff_j) as -> by congruence.
  apply bind_lift_Ok in Hstep as (decision & Hdec & Hstep).
  apply bind_lift_Ok in Hstep
    as (sr1 & (row0 & vals & Hrow0 & Hlen0 & Hvals & ->)%setitem_row_mask_nat
        & Hstep).
  apply bind_lift_Ok in Hstep as (row & Hrow%getrow_nat & Hstep).
  apply bind_lift_Ok in Hstep as (product & Hproduct & Hstep).
  apply bind_lift_mret_Ok in Hstep
    as (cf1 & (_ & cash & Hcash & ->)%setrow_nat & -> & ->).
  rewrite list_lookup_insert_eq in Hrow by (by eapply lookup_lt_Some).
  rewrite length_fmap in HlenX, Hlenc, Hlen0.
  pose proof (proj1 (Forall_lookup _ _) Hcf_rect _ _ Hcfj) as HN.
  simpl in HN.
  injection Hrow as <-.
  rewrite broadcast2_same in Hproduct
    by (rewrite length_place; congruence).
  injection Hproduct as <-.
  rewrite broadcast_to_same in Hcash
    by (rewrite length_zip_with_l_eq; rewrite length_place; congruence).
  injection Hcash as <-.
  exists row0, cf_j. do 2 eexists. split_and!; [done..| |done].
  exists payoff_j, X_j, d, fit, EV, decision, vals.
  split_and!; try done; congruence.
Qed.

Lemma step_rows_lengths j row0 cashflow_j row cash :
  step_rows N X payoff discount_factor fit_func pred_func args j row0 cashflow_j row cash -> length row0 = N ->
  length row = N /\ length cash = N.
Proof.
  intros (payoff_j & X_j & d & fit & EV & decision & vals & Hrows) Hrow0.
  simpl in Hrows.
  destruct Hrows as (_ & Hlen & _ & _ & _ & _ & _ & _ & _ & -> & ->).
  split; [by rewrite length_place|].
  rewrite length_zip_with_l_eq; rewrite length_place; congruence.
Qed.

(** The loop from date [k] down to date 1 keeps the rows from [k] on and
    leaves rows [0..k-1] as the passes at dates [1..k] wrote them. *)
Lemma backward_loop_Ok M k (st st' : matrices) tr :
  shaped M N st -> (k < M)%nat ->
  (forall i, (i < k)%nat -> st.1 !! i = Some (replicate N false)) ->
  for_each (range_down k)
    (lsmc_step N X payoff discount_factor fit_func pred_func args) st = (tr, Ok st') ->
  shaped M N st' /\
  (forall i, (k <= i)%nat -> st'.1 !! i = st.1 !! i /\ st'.2 !! i = st.2 !! i) /\
  (forall j, (1 <= j <= k)%nat ->
             date_rows N X payoff discount_factor fit_func pred_func args j st').
Proof.
  revert st tr. induction k as [|k IH]; intros st tr Hshape Hk Hfalse Hloop.
  { injection Hloop as <- <-. split_and!; [done|done|]. intros j Hj. lia. }
  simpl in Hloop.
  apply bind_Ok in Hloop as (st1 & tr1 & tr2 & Hstep & Hloop & ->).
  eapply lsmc_step_Ok in Hstep as (row0 & cf_j & row & cash & Hrow0 & Hcfj & Hrows & ->);
    [|exact Hshape|lia].
  replace (S k - 1)%nat with k in * by lia.
  rewrite Hfalse in Hrow0 by lia. injection Hrow0 as <-.
  destruct (step_rows_lengths _ _ _ _ _ Hrows) as [Hrow Hcash];
    [apply length_replicate|].
  destruct Hshape as (Hsr & Hsr_rect & Hcf & Hcf_rect).
  apply IH in Hloop as (Hshape' & Hkeep & Hdates); [|split_and!|lia|]; simpl.
  - split_and!; [done| |].
    + intros i Hi. destruct (Hkeep i) as [-> ->]; [lia|]. simpl.
      rewrite !list_lookup_insert_ne by lia. done.
    + intros j Hj. destruct (decide (j = S k)) as [->|]; [|apply Hdates; lia].
      exists cf_j, row, cash. replace (S k - 1)%nat with k by lia.
      destruct (Hkeep (S k)) as [_ ->]; [lia|].
      destruct (Hkeep k) as [-> ->]; [lia|]. simpl.
      rewrite list_lookup_insert_ne by lia.
      rewrite !list_lookup_insert_eq by lia. done.
  - by rewrite length_insert.
  - by apply insert_rect.
  - by rewrite length_insert.
  - by apply insert_rect.
  - intros i Hi. rewrite list_lookup_insert_ne by lia. apply Hfalse. lia.
Qed.

(** What the initialisation and the loop leave: [M >= 1] rows; the last
    row of each matrix comes from the payoff at maturity; every earlier
    row comes from the pass at its date. *)
Lemma lsmc_backward_Ok M (st : matrices) tr :
  lsmc_backward M N X payoff discount_factor fit_func pred_func args
    = (tr, Ok st) ->
  exists Mn payoff_M row_M cash_M,
    M = Z.of_nat (S Mn) /\ shaped (S Mn) N st /\
    payoff !! S Mn = Some payoff_M /\
    Index.broadcast_to N ((fun p => fgt p fzero) <$> payoff_M) = Ok row_M /\
    st.1 !! Mn = Some row_M /\
    Index.broadcast_to N payoff_M = Ok cash_M /\
    st.2 !! Mn = Some cash_M /\
    forall j, (1 <= j <= Mn)%nat ->
              date_rows N X payoff discount_factor fit_func pred_func args j st.
Proof.
  unfold lsmc_backward. intros Hrun.
  apply bind_lift_Ok in Hrun as ([] & HM & Hrun).
  destruct (Z.ltb_spec M 0) as [|HM0]; [discriminate|]. clear HM.
  apply bind_lift_Ok in Hrun as (payoff_M & HpM & Hrun).
  apply bind_lift_Ok in Hrun as (sr0 & Hsr0 & Hrun).
  apply bind_lift_Ok in Hrun as (cf0 & Hcf0 & Hrun).
  unfold Index.setrow in Hcf0.
  apply result_bind_Ok in Hcf0 as (k & Hk & Hcf0).
  apply norm_index_Ok in Hk as (Hk & Hk0 & Hk1).
  rewrite length_replicate in Hk, Hk1.
  assert (1 <= M) as HM1 by lia.
  assert (k = Z.to_nat (M - 1)) as -> by lia.
  set (Mn := Z.to_nat (M - 1)) in *.
  assert (Z.to_nat M = S Mn) as HMn by lia.
  assert (M = Z.of_nat (S Mn)) as HMz by lia.
  apply result_bind_Ok in Hcf0 as (cash_M & Hcash & [= <-]).
  unfold Index.setrows_from in Hsr0.
  apply result_bind_Ok in Hsr0 as (row_M & Hrow & [= <-]).
  rewrite length_replicate in Hrun.
  assert (Index.slice_start (M - 1) (Z.to_nat M) = Mn) as Hslice.
  { unfold Index.slice_start. destruct (Z.ltb_spec (M - 1) 0); lia. }
  rewrite Hslice, HMn in Hrun.
  rewrite take_replicate, Nat.min_l in Hrun by lia.
  replace (S Mn - Mn)%nat with 1%nat in Hrun by lia.
  rewrite HMz in HpM. apply getrow_nat in HpM.
  pose proof (broadcast_to_length _ _ _ Hrow) as Hrow_len.
  pose proof (broadcast_to_length _ _ _ Hcash) as Hcash_len.
  apply backward_loop_Ok with (M := S Mn) in Hrun
    as (Hshape & Hkeep & Hdates); [|split_and!|lia|]; cbn [fst snd].
  - exists Mn, payoff_M, row_M, cash_M. split_and!; try done.
    + destruct (Hkeep Mn) as [-> _]; [lia|]. cbn [fst snd].
      apply list_lookup_middle. by rewrite length_replicate.
    + destruct (Hkeep Mn) as [_ ->]; [lia|]. cbn [fst snd].
      apply list_lookup_insert_eq. rewrite length_replicate. lia.
  - rewrite length_app, !length_replicate. simpl. lia.
  - apply Forall_app. split; [apply Forall_replicate, length_replicate|].
    by repeat constructor.
  - by rewrite length_insert, length_replicate.
  - apply insert_rect; [|done]. apply Forall_replicate, length_replicate.
  - intros i Hi. rewrite lookup_app_l by (rewrite length_replicate; lia).
    by apply lookup_replicate_2.
Qed.

End Backward.

(** ** The routine as a whole *)

Section Routine.
Context {F : Type} `{Scalar F} {Model Params : Type}.
Implicit Types (t X : ndarray F) (K r : F) (type : string) (args : Params).
Implicit Types (payoff_func : @payoff_fn F) (fit_func : @fit_fn F Model Params).
Implicit Types (pred_func : @pred_fn F Model Params).

(** A run that reaches the [return] passed the three assertions, called
    the payoff function once and first, and went through the backward
    loop; the four locals are read off the loop's matrices. *)
Lemma lsmc_locals_Ok t X K r payoff_func type fit_func pred_func args tr l :
  lsmc_locals t X K r payoff_func type fit_func pred_func args = (tr, Ok l) ->
  exists tv N rows payoff st tr',
    let discount_factor := (fun d => fexp (fmul (fopp r) d)) <$> diff tv in
    t = Arr1 tv /\ X = Arr2 N rows /\ length rows = length tv /\
    payoff_func X K type = Ok payoff /\
    lsmc_backward (Z.of_nat (length tv) - 1) N rows payoff discount_factor
                  fit_func pred_func args = (tr', Ok st) /\
    tr = CallPayoff X K type :: tr' /\
    stopping_rule l = Np.collapse st.1 /\
    cashflow l = mask_mul (Np.collapse st.1) st.2 /\
    discounted l
      = matvec (transpose N (cashflow l)) (cumprod discount_factor) /\
    price l = mean (discounted l).
Proof.
  unfold lsmc_locals, assert_. intros Hrun.
  apply bind_lift_Ok in Hrun as ([] & Ht & Hrun).
  apply bind_lift_Ok in Hrun as ([] & HX & Hrun).
  apply bind_lift_Ok in Hrun as ([] & Hlen & Hrun).
  destruct t as [|tv| |]; try discriminate.
  destruct X as [| |N rows|]; try discriminate.
  simpl in Hlen. destruct (Nat.eqb_spec (length rows) (length tv)); [|discriminate].
  apply bind_invoke_Ok in Hrun as (payoff & tr' & Hpayoff & Hrun & ->).
  apply bind_Ok in Hrun as ([sr cf] & tr1 & tr2 & Hback & Hrun & ->).
  injection Hrun as <- <-.
  exists tv, N, rows, payoff, (sr, cf), tr1. simpl.
  rewrite app_nil_r. split_and!; done.
Qed.

End Routine.

(** ** The stopping rule after the collapse *)

Section Columns.
Import Np.
Context {A : Type}.

Lemma column_lookup N (m : list (list A)) n i :
  rectangular N m -> (n < N)%nat -> column n m !! i = entry m i n.
Proof.
  intros Hm Hn. revert i. induction m as [|row m IH]; intros i; [done|].
  apply Forall_cons in Hm as [Hrow Hm]. unfold column, entry in *. simpl.
  destruct (lookup_lt_is_Some_2 row n) as [x Hx]; [lia|]. rewrite Hx.
  destruct i as [|i]; simpl; [by rewrite Hx|]. by apply IH.
Qed.

Lemma column_ge N (m : list (list A)) n :
  rectangular N m -> (N <= n)%nat -> column n m = [].
Proof.
  intros Hm Hn. induction m as [|row m IH]; [done|].
  apply Forall_cons in Hm as [Hrow Hm]. unfold column in *. simpl.
  rewrite (lookup_ge_None_2 row n) by lia. by apply IH.
Qed.

End Columns.

(** C3: for every rectangular boolean matrix, keeping the entries where the
    cumulative sum of the cumulative sum along the time axis equals 1 is
    the same as the scan that finds the first-true index of every path and
    keeps that entry only: an entry of the result is true exactly when the
    entry of the input is true and every entry above it in its column is
    false, so a column without a true entry stays without one. *)
Theorem collapse_keeps_first_true N (m : list (list bool)) :
  Np.rectangular N m ->
  Np.collapse m = Scan.keep_first_true m /\
  forall i n, (i < length m)%nat -> (n < N)%nat ->
    (Np.entry (Np.collapse m) i n = Some true <->
     Np.entry m i n = Some true /\
     forall k, (k < i)%nat -> Np.entry m k n = Some false).
Proof.
  intros Hm. split.
  - apply (matrix_eq N).
    + unfold Scan.keep_first_true. by rewrite collapse_length, length_imap.
    + by apply collapse_rect.
    + by apply keep_first_true_rect.
    + intros i n Hi Hn. rewrite collapse_length in Hi.
      by rewrite (collapse_entry N), (keep_first_true_entry N).
  - intros i n Hi Hn. rewrite (collapse_entry N) by done.
    rewrite <- (first_true_index_Some N) by done.
    split; [intros [= Hb]; by apply bool_decide_eq_true_1 in Hb|].
    intros Hb. f_equal. by apply bool_decide_eq_true_2.
Qed.

Lemma collapse_keeps_first_true_witness :
  let m := [[true; false; false]; [true; true; false]; [true; false; true]] in
  Np.rectangular 3 m /\
  Np.collapse m
  = [[true; false; false]; [false; true; false]; [false; false; true]] /\
  Np.collapse m = Scan.keep_first_true m.
Proof.
  assert (Np.rectangular 3
            [[true; false; false]; [true; true; false]; [true; false; true]])
    as Hm by (repeat constructor).
  split; [exact Hm|]. split; [reflexivity|].
  exact (proj1 (collapse_keeps_first_true 3 _ Hm)).
Defined.

Section StoppingRule.
Context {F : Type} `{Scalar F} {Model Params : Type}.
Implicit Types (t X : ndarray F) (K r : F) (type : string) (args : Params).
Implicit Types (payoff_func : @payoff_fn F) (fit_func : @fit_fn F Model Params).
Implicit Types (pred_func : @pred_fn F Model Params).

(** C2: in the stopping-rule matrix that a run ends with, every column
    (path) has at most one true entry. *)
Theorem at_most_one_stopping_time
    t X K r payoff_func type fit_func pred_func args tr l n :
  lsmc_locals t X K r payoff_func type fit_func pred_func args = (tr, Ok l) ->
  (Index.count_true (Np.column n (stopping_rule l)) <= 1)%nat.
Proof.
  intros (tv & N & rows & payoff & st & tr' & Hrun)%lsmc_locals_Ok.
  simpl in Hrun.
  destruct Hrun as (_ & _ & _ & _ & Hback & _ & -> & _).
  apply lsmc_backward_Ok in Hback
    as (Mn & _ & _ & _ & _ & (Hlen & Hrect & _) & _).
  pose proof (collapse_rect _ _ Hrect) as Hrect'.
  destruct (decide (n < N)%nat) as [Hn|Hn].
  - apply count_true_le_1. intros i j.
    rewrite !(column_lookup N) by done. intros Hi Hj.
    assert (forall k, Np.entry (Np.collapse st.1) k n = Some true ->
                      Scan.first_true_index st.1 n = Some k) as Hfirst.
    { intros k Hk.
      assert (k < length st.1)%nat as Hlt.
      { unfold Np.entry in Hk. rewrite <- collapse_length.
        destruct (Np.collapse st.1 !! k) eqn:Hrow; [|done].
        by eapply lookup_lt_Some. }
      rewrite (collapse_entry N) in Hk by done.
      injection Hk as Hk. by apply bool_decide_eq_true_1 in Hk. }
    apply Hfirst in Hi, Hj. congruence.
  - rewrite (column_ge N) by (done || lia). unfold Index.count_true. simpl. lia.
Qed.

(** C4: a path that is in the money at maturity, and for which the final
    stopping rule has no true entry in an earlier row, has a true entry in
    the last row. *)
Theorem in_the_money_at_maturity_stops
    t X K r payoff_func type fit_func pred_func args tr l
    M payoff payoff_M p n :
  lsmc_locals t X K r payoff_func type fit_func pred_func args = (tr, Ok l) ->
  len t = S M ->
  payoff_func X K type = Ok payoff ->
  payoff !! M = Some payoff_M ->
  (n < shape1 X)%nat ->
  payoff_M !! n = Some p ->
  fgt p fzero = true ->
  (forall i, (i + 1 < M)%nat -> Np.entry (stopping_rule l) i n <> Some true) ->
  Np.entry (stopping_rule l) (M - 1) n = Some true.
Proof.
  intros (tv & N & rows & payoff' & st & tr' & Hrun)%lsmc_locals_Ok.
  simpl in Hrun.
  destruct Hrun as (-> & -> & _ & Hpayoff & Hback & _ & -> & _).
  simpl. intros HM Hpayoff' HpM Hn Hp Hitm Hearlier.
  assert (payoff' = payoff) as -> by congruence.
  apply lsmc_backward_Ok in Hback
    as (Mn & pM & row_M & _ & HMn & (Hlen & Hrect & _) & HpM' & Hrow & HrowM & _).
  assert (M = S Mn) as -> by lia.
  assert (pM = payoff_M) as -> by congruence.
  replace (S Mn - 1)%nat with Mn by lia.
  assert (Np.entry st.1 Mn n = Some true) as Htrue.
  { unfold Np.entry. rewrite HrowM. simpl.
    eapply broadcast_to_lookup; [exact Hrow|done|].
    by rewrite list_lookup_fmap, Hp, <- Hitm. }
  destruct (Scan.first_true_index st.1 n) as [i|] eqn:Hfirst.
  - pose proof Hfirst as (Hi & Hbefore)%(first_true_index_Some N); [|done..].
    destruct (Nat.lt_trichotomy i Mn) as [Hlt|[->|Hgt]].
    + destruct (Hearlier i); [lia|].
      rewrite (collapse_entry N) by (done || lia).
      by rewrite Hfirst, bool_decide_eq_true_2.
    + rewrite (collapse_entry N) by (done || lia).
      by rewrite Hfirst, bool_decide_eq_true_2.
    + specialize (Hbefore Mn Hgt). congruence.
  - unfold Scan.first_true_index in Hfirst.
    destruct (list_find _ st.1) as [[??]|] eqn:Hfind; [done|].
    apply list_find_None in Hfind. unfold Np.entry in Htrue.
    rewrite HrowM in Htrue. simpl in Htrue.
    by destruct (proj1 (Forall_lookup _ _) Hfind _ _ HrowM).
Qed.

End StoppingRule.

Lemma at_most_one_stopping_time_witness :
  Demo.run4 = (Demo.trace4, Ok Demo.locals4) /\
  (Index.count_true (Np.column 1 (stopping_rule Demo.locals4)) <= 1)%nat.
Proof.
  assert (Demo.run4 = (Demo.trace4, Ok Demo.locals4)) as Hrun
    by (vm_compute; reflexivity).
  split; [exact Hrun|].
  exact (at_most_one_stopping_time _ _ _ _ _ _ _ _ _ _ _ 1%nat Hrun).
Defined.

Lemma in_the_money_at_maturity_stops_witness :
  Demo.run4 = (Demo.trace4, Ok Demo.locals4) /\
  Np.entry (stopping_rule Demo.locals4) 2 2 = Some true.
Proof.
  assert (Demo.run4 = (Demo.trace4, Ok Demo.locals4)) as Hrun
    by (vm_compute; reflexivity).
  split; [exact Hrun|].
  apply (in_the_money_at_maturity_stops
           _ _ _ _ _ _ _ _ _ _ _ 3%nat
           [[0; 0; 0]; [10; 0; 2]; [4; 2; 1]; [4; 0; 1]]%float
           [4; 0; 1]%float 1%float 2%nat Hrun).
  - reflexivity.
  - vm_compute. reflexivity.
  - reflexivity.
  - simpl. lia.
  - reflexivity.
  - vm_compute. reflexivity.
  - intros [|[|i]] Hi; vm_compute; (discriminate || lia).
Defined.

(** ** The exercise decision *)

(** Both instances compare strictly: no value exceeds itself. *)
Lemma real_gt_irrefl (x : Rnan) : fgt x x = false.
Proof.
  destruct x as [|x]; simpl; [done|].
  destruct (Rlt_dec x x) as [Hlt|]; [|done]. by apply Rlt_irrefl in Hlt.
Qed.

Lemma binary64_gt_irrefl (x : float) : fgt x x = false.
Proof.
  simpl. rewrite FloatAxioms.ltb_spec. unfold SpecFloat.SFltb.
  destruct (Prim2SF x) as [s|s| |s m e]; simpl; try done.
  - by destruct s.
  - destruct s; rewrite Z.compare_refl, Pos.compare_cont_refl; done.
Qed.

Section Decision.
Context {F : Type} `{Scalar F} {Model Params : Type}.

(** The value that the comparison and the masked assignment leave for the
    in-the-money path at position [rank] of the compressed arrays. *)
Lemma decision_lookup (exercise EV_cont : list F) decision vals count rank p :
  length exercise = count ->
  Index.broadcast2 fgt exercise EV_cont = Ok decision ->
  Index.broadcast_to count decision = Ok vals ->
  exercise !! rank = Some p ->
  exists ev,
    (if (length EV_cont =? count)%nat then EV_cont !! rank
     else EV_cont !! 0%nat) = Some ev /\
    vals !! rank = Some (fgt p ev).
Proof.
  intros Hcount Hdec Hvals Hp. unfold Index.broadcast2 in Hdec.
  pose proof (lookup_lt_Some _ _ _ Hp) as Hrank.
  destruct (Nat.eqb_spec (length exercise) (length EV_cont)) as [Hlen|Hlen].
  - injection Hdec as <-.
    rewrite broadcast_to_same in Hvals
      by (rewrite length_zip_with_l_eq; congruence).
    injection Hvals as <-.
    replace (length EV_cont =? count)%nat with true
      by (symmetry; apply Nat.eqb_eq; congruence).
    destruct (lookup_lt_is_Some_2 EV_cont rank) as [ev Hev]; [lia|].
    exists ev. split; [done|]. by rewrite lookup_zip_with, Hp, Hev.
  - destruct exercise as [|x [|x' exercise]]; simpl in *.
    + lia.
    + injection Hdec as <-. subst count.
      unfold Index.broadcast_to in Hvals. rewrite length_fmap in Hvals.
      destruct (Nat.eqb_spec (length EV_cont) 1); [lia|].
      by destruct EV_cont as [|? [|??]].
    + destruct EV_cont as [|y [|??]]; try done. injection Hdec as <-.
      rewrite broadcast_to_same in Hvals by (simpl; rewrite length_fmap; lia).
      injection Hvals as <-.
      replace (length [y] =? count)%nat with false
        by (symmetry; apply Nat.eqb_neq; simpl; lia).
      exists y. split; [done|].
      change (((fun x0 => fgt x0 y) <$> (x :: x' :: exercise)) !! rank
              = Some (fgt p y)).
      by rewrite list_lookup_fmap, Hp.
Qed.

(** C7: at an interior date [j], for a path that is in the money there,
    the entry that the loop records in row [j-1] of the stopping rule is
    the strict comparison of the immediate payoff with the continuation
    value predicted for that path; when the two are equal the entry is
    false. *)
Theorem tentative_decision_is_strict_comparison
    M N (X payoff : list (list F)) discount_factor
    (fit_func : @fit_fn F Model Params) (pred_func : @pred_fn F Model Params)
    args tr (st : matrices) j payoff_j n p :
  (forall x : F, fgt x x = false) ->
  lsmc_backward M N X payoff discount_factor fit_func pred_func args
    = (tr, Ok st) ->
  (1 <= j)%nat -> Z.of_nat j < M ->
  payoff !! j = Some payoff_j ->
  payoff_j !! n = Some p ->
  fgt p fzero = true ->
  let itm := (fun q => fgt q fzero) <$> payoff_j in
  exists X_j cashflow_j d fit EV_cont ev,
    X !! j = Some X_j /\
    st.2 !! j = Some cashflow_j /\
    discount_factor !! j = Some d /\
    fit_func (Index.compress itm X_j)
             ((fun c => fmul c d) <$> Index.compress itm cashflow_j) args
      = Ok fit /\
    pred_func (Index.compress itm X_j) fit args = Ok EV_cont /\
    paired_value EV_cont itm n = Some ev /\
    Np.entry st.1 (j - 1) n = Some (fgt p ev) /\
    (p = ev -> Np.entry st.1 (j - 1) n = Some false).
Proof.
  intros Hirrefl Hback Hj HjM Hpj Hp Hitm itm.
  apply lsmc_backward_Ok in Hback
    as (Mn & _ & _ & _ & -> & _ & _ & _ & _ & _ & _ & Hdates).
  destruct (Hdates j) as (cf_j & row & cash & Hcfj & Hrow & _ & Hrows); [lia|].
  destruct Hrows as (pj & X_j & d & fit & EV & decision & vals & Hrows).
  simpl in Hrows.
  destruct Hrows as (Hpj' & HlenN & HXj & HlenX & Hd & Hfit & Hpred & Hdec
                     & Hvals & -> & _).
  assert (pj = payoff_j) as -> by congruence. fold itm in Hfit, Hpred, Hdec, Hvals, Hrow.
  assert (itm !! n = Some true) as Hn.
  { unfold itm. by rewrite list_lookup_fmap, Hp, <- Hitm. }
  assert (length itm = N) as Hlen_itm by (unfold itm; by rewrite length_fmap).
  destruct (decision_lookup _ _ _ _ (Index.count_true itm)
              (Index.count_true (take n itm)) p
              (length_compress itm payoff_j ltac:(congruence)) Hdec Hvals)
    as (ev & Hev & Hval).
  { by apply compress_lookup. }
  assert (Np.entry st.1 (j - 1) n = Some (fgt p ev)) as Hentry.
  { unfold Np.entry. rewrite Hrow. simpl. rewrite <- Hval.
    apply place_lookup_true; [|by eapply broadcast_to_length|done].
    by rewrite length_replicate. }
  exists X_j, cf_j, d, fit, EV, ev. split_and!; try done.
  intros ->. by rewrite Hentry, Hirrefl.
Qed.

End Decision.

Lemma tentative_decision_is_strict_comparison_witness :
  Demo.backward4
  = ([CallFit [36; 38; 39] [4; 0; 1]; CallPredict [36; 38; 39];
      CallFit [30; 38] [4; 0]; CallPredict [30; 38]]%float,
     Ok Demo.matrices4) /\
  exists EV_cont ev,
    paired_value EV_cont [true; true; true] 1 = Some ev /\
    Np.entry Demo.matrices4.1 1 1 = Some (fgt 2%float ev).
Proof.
  assert (Demo.backward4
          = ([CallFit [36; 38; 39] [4; 0; 1]; CallPredict [36; 38; 39];
              CallFit [30; 38] [4; 0]; CallPredict [30; 38]]%float,
             Ok Demo.matrices4)) as Hrun by (vm_compute; reflexivity).
  split; [exact Hrun|].
  destruct (tentative_decision_is_strict_comparison
              _ _ _ _ _ _ _ _ _ _ 2%nat [4; 2; 1]%float 1%nat 2%float
              binary64_gt_irrefl Hrun)
    as (X_j & cf_j & d & fit & EV & ev & _ & _ & _ & _ & _ & Hev & Hentry & _);
    [lia|lia|reflexivity|reflexivity|vm_compute; reflexivity|].
  exists EV, ev. split; [exact Hev|exact Hentry].
Defined.

(** ** Binds with equal continuations *)

Section Congruence.
Context {F : Type} `{Scalar F} {Model Params : Type}.

Lemma bind_ext {A B} (m : comp F A) (k1 k2 : A -> comp F B) :
  (forall a, k1 a = k2 a) -> m ≫= k1 = m ≫= k2.
Proof.
  intros Hk. destruct m as [tr [a|e]]; unfold mbind, comp_bind; [|done].
  by rewrite Hk.
Qed.

End Congruence.

(** ** Rejected inputs *)

Section Rejection.
Context {F : Type} `{Scalar F} {Model Params : Type}.

Lemma lsmc_Raise (t X : ndarray F) K r (payoff_func : @payoff_fn F) type
    (fit_func : @fit_fn F Model Params) (pred_func : @pred_fn F Model Params)
    args tr e :
  lsmc_locals t X K r payoff_func type fit_func pred_func args = (tr, Raise e) ->
  lsmc t X K r payoff_func type fit_func pred_func args = (tr, Raise e).
Proof. intros Hrun. unfold lsmc. by rewrite Hrun. Qed.

Lemma lsmc_Ok (t X : ndarray F) K r (payoff_func : @payoff_fn F) type
    (fit_func : @fit_fn F Model Params) (pred_func : @pred_fn F Model Params)
    args tr l :
  lsmc_locals t X K r payoff_func type fit_func pred_func args = (tr, Ok l) ->
  lsmc t X K r payoff_func type fit_func pred_func args = (tr, Ok (price l)).
Proof.
  intros Hrun. unfold lsmc. rewrite Hrun.
  unfold mbind, comp_bind, mret, comp_ret. by rewrite app_nil_r.
Qed.

(** With no exercise date the initialisation raises, and the estimator is
    not reached. *)
Lemma lsmc_backward_short M N X payoff discount_factor
    (fit_func : @fit_fn F Model Params) (pred_func : @pred_fn F Model Params)
    args :
  M < 1 ->
  exists e,
    lsmc_backward M N X payoff discount_factor fit_func pred_func args
    = ([], Raise e).
Proof.
  intros HM. unfold lsmc_backward.
  destruct (Z.ltb_spec M 0) as [|HM0]; [by eexists|].
  assert (M = 0) as -> by lia.
  rewrite (bind_lift_eq _ _ tt) by done.
  destruct (Index.getrow payoff 0) as [payoff_M|e]; [|by exists e].
  rewrite (bind_lift_eq _ _ payoff_M) by done.
  destruct (Index.setrows_from N (0 - 1) (map (fun p => fgt p fzero) payoff_M)
              (replicate (Z.to_nat 0) (replicate N false)))
    as [sr|e]; [|by exists e].
  rewrite (bind_lift_eq _ _ sr) by done.
  exists IndexError. unfold Index.setrow. simpl.
  by destruct (Index.broadcast_to N payoff_M).
Qed.

(** C5, as the code has it: a time grid that is not 1-dimensional, a price
    matrix that is not 2-dimensional, or a price matrix whose number of rows
    differs from the length of the time grid, stops the run at an assertion
    before any collaborator is called.  A time grid with fewer than two
    dates passes the assertions: the payoff function is called, and the
    run ends in an exception only after that call. *)
Theorem shape_violations_rejected_at_start
    (t X : ndarray F) K r (payoff_func : @payoff_fn F) type
    (fit_func : @fit_fn F Model Params) (pred_func : @pred_fn F Model Params)
    args :
  (ndim t <> 1%nat \/ ndim X <> 2%nat \/ len X <> len t ->
   rejected_at_start
     (lsmc_locals t X K r payoff_func type fit_func pred_func args) /\
   rejected_at_start
     (lsmc t X K r payoff_func type fit_func pred_func args)) /\
  (ndim t = 1%nat -> ndim X = 2%nat -> len X = len t -> (len t < 2)%nat ->
   exists e,
     lsmc t X K r payoff_func type fit_func pred_func args
     = ([CallPayoff X K type], Raise e)).
Proof.
  split.
  - intros Hshape.
    assert (rejected_at_start
              (lsmc_locals t X K r payoff_func type fit_func pred_func args))
      as [msg Hrun].
    { unfold lsmc_locals, assert_.
      destruct (Nat.eqb_spec (ndim t) 1) as [Ht|Ht]; [|by eexists].
      destruct (Nat.eqb_spec (ndim X) 2) as [HX|HX]; [|by eexists].
      destruct (Nat.eqb_spec (len X) (len t)) as [Hlen|Hlen]; [|by eexists].
      by destruct Hshape as [?|[?|?]]. }
    split; exists msg; [done|]. by apply lsmc_Raise.
  - intros Ht HX Hlen Hshort.
    assert (exists e,
              lsmc_locals t X K r payoff_func type fit_func pred_func args
              = ([CallPayoff X K type], Raise e)) as [e Hrun];
      [|exists e; by apply lsmc_Raise].
    unfold lsmc_locals, assert_.
    rewrite (proj2 (Nat.eqb_eq _ _) Ht), (proj2 (Nat.eqb_eq _ _) HX),
      (proj2 (Nat.eqb_eq _ _) Hlen).
    rewrite !(bind_lift_eq _ _ tt) by done.
    destruct (payoff_func X K type) as [payoff|e]; [|by exists e].
    destruct (lsmc_backward_short (Z.of_nat (len t) - 1) (shape1 X) (data2 X)
                payoff ((fun d => fexp (fmul (fopp r) d)) <$> diff (data1 t))
                fit_func pred_func args) as [e He]; [lia|].
    exists e. erewrite bind_invoke_eq; [done..|].
    unfold mbind, comp_bind.
    change (map (fun d => fexp (fmul (fopp r) d)) (diff (data1 t)))
      with ((fun d => fexp (fmul (fopp r) d)) <$> diff (data1 t)).
    by rewrite He.
Qed.

(** C6, as the code has it: a run that reaches the [return] hands back
    the price and nothing else, the mean over the paths of the discounted
    collapsed cashflows; a run that raises hands back nothing. *)
Theorem lsmc_returns_price_only
    (t X : ndarray F) K r (payoff_func : @payoff_fn F) type
    (fit_func : @fit_fn F Model Params) (pred_func : @pred_fn F Model Params)
    args tr :
  (forall p,
     lsmc t X K r payoff_func type fit_func pred_func args = (tr, Ok p) <->
     exists l,
       lsmc_locals t X K r payoff_func type fit_func pred_func args
         = (tr, Ok l) /\
       p = price l /\
       p = mean (matvec (transpose (shape1 X) (cashflow l))
                        (cumprod ((fun d => fexp (fmul (fopp r) d))
                                    <$> diff (data1 t))))) /\
  (forall e,
     lsmc t X K r payoff_func type fit_func pred_func args = (tr, Raise e) <->
     lsmc_locals t X K r payoff_func type fit_func pred_func args
       = (tr, Raise e)).
Proof.
  unfold lsmc.
  destruct (lsmc_locals t X K r payoff_func type fit_func pred_func args)
    as [tr0 [l|e0]] eqn:Hrun; unfold mbind, comp_bind, mret, comp_ret;
    rewrite ?app_nil_r.
  - split.
    + intros p. split.
      * intros [= <- <-]. exists l. split_and!; [done..|].
        apply lsmc_locals_Ok in Hrun
          as (tv & N & rows & payoff & st & tr' & Hrun).
        simpl in Hrun.
        destruct Hrun as (-> & -> & _ & _ & _ & _ & _ & _ & Hdisc & ->).
        by rewrite Hdisc.
      * intros (l' & [= <- <-] & -> & _). done.
    + intros e. split; intros [=].
  - split.
    + intros p. split; [intros [=]|intros (l' & [=] & _)].
    + intros e. split; intros [= -> ->]; done.
Qed.

End Rejection.

(** C5, as the specification states it, fails twice.  A decreasing time
    grid is not rejected, it is priced.  A time grid with one date is not
    rejected by an assertion before anything is computed: the payoff
    function runs and the first row assignment raises an index error. *)
Lemma unchecked_time_grids :
  strictly_increasing [1; 0]%float = false /\
  Demo.run_decreasing
  = ([CallPayoff (Arr2 1 [[40]; [30]]%float) 40%float "PUT"], Ok 10%float) /\
  ~ rejected_at_start Demo.run_decreasing /\
  Demo.run_single_date
  = ([CallPayoff (Arr2 1 [[40]]%float) 40%float "PUT"], Raise IndexError) /\
  ~ rejected_at_start Demo.run_single_date.
Proof.
  assert (Demo.run_decreasing
          = ([CallPayoff (Arr2 1 [[40]; [30]]%float) 40%float "PUT"],
             Ok 10%float)) as Hdec by (vm_compute; reflexivity).
  assert (Demo.run_single_date
          = ([CallPayoff (Arr2 1 [[40]]%float) 40%float "PUT"],
             Raise IndexError)) as Hone by (vm_compute; reflexivity).
  split_and!; [vm_compute; reflexivity|exact Hdec| |exact Hone|].
  - intros [msg Hmsg]. rewrite Hdec in Hmsg. discriminate.
  - intros [msg Hmsg]. rewrite Hone in Hmsg. discriminate.
Qed.

Lemma shape_violations_rejected_at_start_witness :
  ndim (Arr2 1 [[1]; [0]]%float) <> 1%nat /\
  rejected_at_start
    (lsmc (Arr2 1 [[1]; [0]]%float) (Arr2 1 [[40]; [30]]%float)
          40%float 0%float Demo.put_payoff "PUT"
          Demo.fit_mean Demo.pred_mean tt).
Proof.
  assert (ndim (Arr2 1 [[1]; [0]]%float) <> 1%nat) as Hndim
    by (simpl; lia).
  split; [exact Hndim|].
  exact (proj2 (proj1 (shape_violations_rejected_at_start
                         (Arr2 1 [[1]; [0]]%float) (Arr2 1 [[40]; [30]]%float)
                         40%float 0%float Demo.put_payoff "PUT"
                         Demo.fit_mean Demo.pred_mean tt)
                      (or_introl Hndim))).
Defined.

(** C6, as the specification states it, fails: the returned value does
    not carry the matrices.  Two runs return the same value, the price 5,
    and differ in their stopping rule and in their cashflow matrix, so
    nothing computed from the returned value gives either matrix. *)
Lemma same_price_different_matrices :
  Demo.price_of Demo.X_left
  = ([CallPayoff Demo.X_left 40%float "PUT"], Ok 5%float) /\
  Demo.price_of Demo.X_right
  = ([CallPayoff Demo.X_right 40%float "PUT"], Ok 5%float) /\
  Demo.locals_of Demo.X_left
  = ([CallPayoff Demo.X_left 40%float "PUT"],
     Ok (Locals [[true; false]] [[10; 0]]%float [10; 0]%float 5%float)) /\
  Demo.locals_of Demo.X_right
  = ([CallPayoff Demo.X_right 40%float "PUT"],
     Ok (Locals [[false; true]] [[0; 10]]%float [0; 10]%float 5%float)) /\
  ~ exists read : float -> list (list bool),
      forall X tr p l,
        Demo.price_of X = (tr, Ok p) -> Demo.locals_of X = (tr, Ok l) ->
        read p = stopping_rule l.
Proof.
  assert (Demo.price_of Demo.X_left
          = ([CallPayoff Demo.X_left 40%float "PUT"], Ok 5%float)) as Hp1
    by (vm_compute; reflexivity).
  assert (Demo.price_of Demo.X_right
          = ([CallPayoff Demo.X_right 40%float "PUT"], Ok 5%float)) as Hp2
    by (vm_compute; reflexivity).
  assert (Demo.locals_of Demo.X_left
          = ([CallPayoff Demo.X_left 40%float "PUT"],
             Ok (Locals [[true; false]] [[10; 0]]%float [10; 0]%float 5%float)))
    as Hl1 by (vm_compute; reflexivity).
  assert (Demo.locals_of Demo.X_right
          = ([CallPayoff Demo.X_right 40%float "PUT"],
             Ok (Locals [[false; true]] [[0; 10]]%float [0; 10]%float 5%float)))
    as Hl2 by (vm_compute; reflexivity).
  split_and!; [done..|].
  intros [read Hread].
  pose proof (Hread _ _ _ _ Hp1 Hl1) as H1.
  pose proof (Hread _ _ _ _ Hp2 Hl2) as H2.
  simpl in H1, H2. congruence.
Qed.

(** ** A single exercise date *)

Section SingleDate.
Context {F : Type} `{Scalar F} {Model Params : Type}.

(** With two dates the loop has no pass: the matrices are the
    initialisation from the payoff at maturity. *)
Lemma lsmc_backward_single N X row0 row1 discount_factor
    (fit_func : @fit_fn F Model Params) (pred_func : @pred_fn F Model Params)
    args :
  length row1 = N ->
  lsmc_backward 1 N X [row0; row1] discount_factor fit_func pred_func args
  = ([], Ok ([(fun p => fgt p fzero) <$> row1], [row1])).
Proof.
  intros Hlen. unfold lsmc_backward.
  rewrite (bind_lift_eq _ _ tt) by reflexivity.
  rewrite (bind_lift_eq _ _ row1) by reflexivity.
  rewrite (bind_lift_eq _ _ [(fun p => fgt p fzero) <$> row1]).
  2:{ unfold Index.setrows_from.
      rewrite broadcast_to_same by (by rewrite length_map). reflexivity. }
  rewrite (bind_lift_eq _ _ [row1]).
  2:{ unfold Index.setrow. rewrite broadcast_to_same by done. reflexivity. }
  reflexivity.
Qed.

Lemma lsmc_locals_single t0 t1 N x0 x1 K r (payoff_func : @payoff_fn F) type
    (fit_func : @fit_fn F Model Params) (pred_func : @pred_fn F Model Params)
    args row0 row1 :
  payoff_func (Arr2 N [x0; x1]) K type = Ok [row0; row1] ->
  length row1 = N ->
  lsmc_locals (Arr1 [t0; t1]) (Arr2 N [x0; x1]) K r payoff_func type
              fit_func pred_func args
  = ([CallPayoff (Arr2 N [x0; x1]) K type],
     Ok (let sr := Np.collapse [(fun p => fgt p fzero) <$> row1] in
         let cf := mask_mul sr [row1] in
         let pv := matvec (transpose N cf)
                          [fexp (fmul (fopp r) (fsub t1 t0))] in
         Locals sr cf pv (mean pv))).
Proof.
  intros Hpayoff Hlen. unfold lsmc_locals, assert_.
  rewrite !(bind_lift_eq _ _ tt) by reflexivity.
  erewrite bind_invoke_eq; [reflexivity|exact Hpayoff|].
  change (Z.of_nat (len (Arr1 [t0; t1])) - 1) with 1.
  cbn [shape1 data2].
  rewrite lsmc_backward_single by done. reflexivity.
Qed.

End SingleDate.

(** ** Exact arithmetic *)

Section Reals.
Local Open Scope R_scope.
#[local] Arguments IZR : simpl never.

Lemma real_gt_true x y : y < x -> fgt (Fin x) (Fin y) = true.
Proof.
  intros Hlt. simpl. unfold RealScalar.gt.
  destruct (Rlt_dec y x); [done|lra].
Qed.

Lemma real_gt_false x y : x <= y -> fgt (Fin x) (Fin y) = false.
Proof.
  intros Hle. simpl. unfold RealScalar.gt.
  destruct (Rlt_dec y x); [lra|done].
Qed.

Lemma two_date_put_locals
    {Model Params : Type} (r : R) (payoff_func : @payoff_fn Rnan)
    (fit_func : @fit_fn Rnan Model Params)
    (pred_func : @pred_fn Rnan Model Params) (args : Params)
    (row0 : list Rnan) :
  payoff_func Demo.X2 (Fin 40) "PUT"%string
  = Ok [row0; [Fin 10; Fin 0; Fin 2]] ->
  lsmc_locals Demo.t2 Demo.X2 (Fin 40) (Fin r) payoff_func "PUT"%string
              fit_func pred_func args
  = ([CallPayoff Demo.X2 (Fin 40) "PUT"%string],
     Ok (Locals [[true; false; true]]
                [[Fin 10; Fin 0; Fin 2]]
                [Fin (exp (- r) * 10); Fin (exp (- r) * 0); Fin (exp (- r) * 2)]
                (Fin (exp (- r) * (10 + 0 + 2) / 3)))).
Proof.
  intros Hpayoff. unfold Demo.t2, Demo.X2.
  erewrite lsmc_locals_single; [|exact Hpayoff|reflexivity].
  do 2 f_equal.
  assert ((fun p => fgt p fzero) <$> [Fin 10; Fin 0; Fin 2]
          = [true; false; true]) as ->.
  { cbn [fmap list_fmap]. change (@fzero Rnan _) with (Fin 0).
    rewrite (real_gt_true 10 0), (real_gt_false 0 0), (real_gt_true 2 0)
      by lra.
    reflexivity. }
  change (Np.collapse [[true; false; true]]) with [[true; false; true]].
  cbn. unfold RealScalar.div. cbn.
  destruct (Req_dec_T (1 + 1 + 1) 0) as [Hzero|_]; [lra|].
  replace (- r * (1 - 0)) with (- r) by lra.
  f_equal; repeat f_equal; lra.
Qed.

Lemma put_payoff2 :
  Demo.put_payoff Demo.X2 (Fin 40) "PUT"%string = Ok Demo.payoff2.
Proof.
  unfold Demo.put_payoff, Demo.X2, Demo.payoff2. cbn.
  unfold RealScalar.gt.
  repeat (match goal with
          | |- context [Rlt_dec ?a ?b] => destruct (Rlt_dec a b); try lra
          end).
  do 2 f_equal; repeat f_equal; lra.
Qed.

(** The scenario of the specification in exact arithmetic, where [exp]
    cannot overflow: on the time grid [0, 1], three paths and strike 40,
    with a payoff function that gives row [10, 0, 2] at maturity, and for
    any real rate [r] and any estimator, the run calls the payoff function
    and nothing else, and ends with stopping rule [[true, false, true]],
    cashflow [[10, 0, 2]] and price [exp(-r) * (10 + 0 + 2) / 3].  In
    binary64 the price is this only up to rounding and only while
    [np.exp(-r)] is finite: see the section on overflow. *)
Lemma two_date_put_scenario
    {Model Params : Type} (r : R) (payoff_func : @payoff_fn Rnan)
    (fit_func : @fit_fn Rnan Model Params)
    (pred_func : @pred_fn Rnan Model Params) (args : Params)
    (row0 : list Rnan) :
  let t := Arr1 [Fin 0; Fin 1] in
  let X := Arr2 3 [[Fin 40; Fin 40; Fin 40]; [Fin 30; Fin 45; Fin 38]] in
  payoff_func X (Fin 40) "PUT"%string = Ok [row0; [Fin 10; Fin 0; Fin 2]] ->
  lsmc_locals t X (Fin 40) (Fin r) payoff_func "PUT"%string
              fit_func pred_func args
  = ([CallPayoff X (Fin 40) "PUT"%string],
     Ok (Locals [[true; false; true]]
                [[Fin 10; Fin 0; Fin 2]]
                [Fin (exp (- r) * 10); Fin (exp (- r) * 0); Fin (exp (- r) * 2)]
                (Fin (exp (- r) * (10 + 0 + 2) / 3)))) /\
  lsmc t X (Fin 40) (Fin r) payoff_func "PUT"%string fit_func pred_func args
  = ([CallPayoff X (Fin 40) "PUT"%string],
     Ok (Fin (exp (- r) * (10 + 0 + 2) / 3))).
Proof.
  intros t X Hpayoff.
  pose proof (two_date_put_locals r payoff_func fit_func pred_func args row0
                Hpayoff) as Hrun.
  split; [exact Hrun|]. exact (lsmc_Ok _ _ _ _ _ _ _ _ _ _ _ Hrun).
Qed.

End Reals.

(** ** Runs that reach the return *)

Section Progress.
Context {F : Type} `{Scalar F} {Model Params : Type}.

Lemma bind_lift_progress {A B} (r : result A) (k : A -> comp F B) a :
  r = Ok a -> (exists tr b, k a = (tr, Ok b)) ->
  exists tr b, lift r ≫= k = (tr, Ok b).
Proof. intros Hr (tr & b & Hk). rewrite (bind_lift_eq _ _ a) by done. eauto. Qed.

Lemma bind_invoke_progress {A B} c (r : result A) (k : A -> comp F B) a :
  r = Ok a -> (exists tr b, k a = (tr, Ok b)) ->
  exists tr b, invoke c r ≫= k = (tr, Ok b).
Proof.
  intros Hr (tr & b & Hk). exists (c :: tr), b. by eapply bind_invoke_eq.
Qed.

Lemma bind_lift_mret_progress {A B} (r : result A) (f : A -> B) a :
  r = Ok a ->
  exists tr b, (a ← lift r; mret (f a) : comp F B) = (tr, Ok b).
Proof. intros ->. by do 2 eexists. Qed.

Context (M N : nat) (X payoff : list (list F)) (discount_factor : list F)
        (fit_func : @fit_fn F Model Params)
        (pred_func : @pred_fn F Model Params) (args : Params).
Context (HX_len : length X = S M) (HX : Np.rectangular N X)
        (Hpayoff_len : length payoff = S M) (Hpayoff : Np.rectangular N payoff)
        (Hdiscount : length discount_factor = M)
        (Hfit : forall x y, exists fit, fit_func x y args = Ok fit)
        (Hpred : forall x fit, exists EV_cont,
                   pred_func x fit args = Ok EV_cont /\
                   length EV_cont = length x).

(** On matrices of the right shape, with an estimator that answers with
    one value per path, a pass of the loop body goes through. *)
Lemma lsmc_step_progress j (st : matrices) :
  shaped M N st -> (1 <= j < M)%nat ->
  exists tr st',
    lsmc_step N X payoff discount_factor fit_func pred_func args j st
    = (tr, Ok st').
Proof.
  destruct st as [sr cf]. intros (Hsr & Hsr_rect & Hcf & Hcf_rect) Hj.
  simpl in *.
  destruct (lookup_lt_is_Some_2 payoff j) as [payoff_j Hpj]; [lia|].
  destruct (lookup_lt_is_Some_2 X j) as [X_j HXj]; [lia|].
  destruct (lookup_lt_is_Some_2 cf j) as [cf_j Hcfj]; [lia|].
  destruct (lookup_lt_is_Some_2 discount_factor j) as [d Hd]; [lia|].
  destruct (lookup_lt_is_Some_2 sr (j - 1)) as [row0 Hrow0]; [lia|].
  pose proof (proj1 (Forall_lookup _ _) Hpayoff _ _ Hpj) as Hlen_pj.
  pose proof (proj1 (Forall_lookup _ _) HX _ _ HXj) as Hlen_Xj.
  pose proof (proj1 (Forall_lookup _ _) Hcf_rect _ _ Hcfj) as Hlen_cfj.
  pose proof (proj1 (Forall_lookup _ _) Hsr_rect _ _ Hrow0) as Hlen_row0.
  simpl in Hlen_pj, Hlen_Xj, Hlen_cfj, Hlen_row0.
  set (itm := (fun p => fgt p fzero) <$> payoff_j).
  assert (length itm = N) as Hitm by (unfold itm; by rewrite length_fmap).
  destruct (Hfit (Index.compress itm X_j)
                 ((fun c => fmul c d) <$> Index.compress itm cf_j))
    as [fit Hfit'].
  destruct (Hpred (Index.compress itm X_j) fit) as (EV & HEV & HEV_len).
  rewrite length_compress in HEV_len by congruence.
  set (decision := zip_with fgt (Index.compress itm payoff_j) EV).
  assert (length decision = Index.count_true itm) as Hdecision.
  { unfold decision. rewrite length_zip_with_l_eq;
      rewrite length_compress; congruence. }
  set (row := Index.place itm decision row0).
  unfold lsmc_step. cbv beta iota zeta.
  replace (Z.of_nat j - 1) with (Z.of_nat (j - 1)) by lia.
  eapply bind_lift_progress; [by apply getrow_nat|].
  eapply bind_lift_progress.
  { apply getitem_row_mask_nat. exists X_j. split_and!; [done| |done].
    by rewrite length_map, Hlen_pj, Hlen_Xj. }
  eapply bind_lift_progress.
  { apply getitem_row_mask_nat. exists cf_j. split_and!; [done| |done].
    by rewrite length_map, Hlen_pj, Hlen_cfj. }
  eapply bind_lift_progress; [by apply getitem_nat|].
  eapply bind_invoke_progress; [exact Hfit'|].
  eapply bind_invoke_progress; [exact HEV|].
  eapply bind_lift_progress.
  { apply getitem_row_mask_nat. exists payoff_j. split_and!; [done| |done].
    by rewrite length_map. }
  eapply bind_lift_progress.
  { apply broadcast2_same. rewrite length_compress; [|by rewrite length_map].
    by rewrite HEV_len. }
  eapply bind_lift_progress.
  { apply setitem_row_mask_nat. exists row0, decision.
    split_and!; [done| | |done].
    - by rewrite length_map, Hlen_pj, Hlen_row0.
    - by apply broadcast_to_same. }
  eapply bind_lift_progress.
  { apply getrow_nat. apply list_lookup_insert_eq. lia. }
  eapply bind_lift_progress.
  { apply broadcast2_same. rewrite length_place. congruence. }
  eapply bind_lift_mret_progress.
  apply setrow_nat. split; [lia|]. eexists. split; [|done].
  apply broadcast_to_same. rewrite length_zip_with_l_eq;
    rewrite length_place; congruence.
Qed.

Lemma backward_loop_progress k (st : matrices) :
  shaped M N st -> (k < M)%nat ->
  exists tr st',
    for_each (range_down k)
      (lsmc_step N X payoff discount_factor fit_func pred_func args) st
    = (tr, Ok st').
Proof.
  revert st. induction k as [|k IH]; intros st Hshape Hk.
  { by do 2 eexists. }
  destruct (lsmc_step_progress (S k) st Hshape) as (tr1 & st1 & Hstep); [lia|].
  pose proof Hstep as Hstep'.
  eapply lsmc_step_Ok in Hstep'
    as (row0 & cf_j & row & cash & Hrow0 & _ & Hrows & ->); [|done|lia].
  destruct Hshape as (Hsr & Hsr_rect & Hcf & Hcf_rect).
  destruct (step_rows_lengths _ _ _ _ _ _ _ _ _ _ _ _ Hrows) as [Hrow Hcash].
  { exact (proj1 (Forall_lookup _ _) Hsr_rect _ _ Hrow0). }
  destruct (IH (<[(S k - 1)%nat := row]> st.1, <[(S k - 1)%nat := cash]> st.2))
    as (tr2 & st' & Hloop); [|lia|].
  { split_and!; simpl; rewrite ?length_insert; try done;
      by apply insert_rect. }
  exists (tr1 ++ tr2), st'. simpl. unfold mbind, comp_bind.
  by rewrite Hstep, Hloop.
Qed.

Lemma lsmc_backward_progress :
  (1 <= M)%nat ->
  exists tr st,
    lsmc_backward (Z.of_nat M) N X payoff discount_factor
                  fit_func pred_func args = (tr, Ok st).
Proof.
  intros HM. unfold lsmc_backward.
  destruct (lookup_lt_is_Some_2 payoff M) as [payoff_M HpM]; [lia|].
  pose proof (proj1 (Forall_lookup _ _) Hpayoff _ _ HpM) as Hlen. simpl in Hlen.
  eapply bind_lift_progress.
  { destruct (Z.ltb_spec (Z.of_nat M) 0); [lia|done]. }
  eapply bind_lift_progress; [by apply getrow_nat|].
  eapply bind_lift_progress.
  { unfold Index.setrows_from. rewrite broadcast_to_same; [done|].
    by rewrite length_map. }
  replace (Z.of_nat M - 1) with (Z.of_nat (M - 1)) by lia.
  eapply bind_lift_progress.
  { apply setrow_nat. rewrite length_replicate.
    split; [lia|]. eexists. split; [by apply broadcast_to_same|done]. }
  rewrite !Nat2Z.id, length_replicate.
  apply backward_loop_progress; [|lia].
  assert (Index.slice_start (Z.of_nat (M - 1)) M = (M - 1)%nat) as ->.
  { unfold Index.slice_start.
    destruct (Z.ltb_spec (Z.of_nat (M - 1)) 0); lia. }
  split_and!; simpl.
  - rewrite length_app, length_take, !length_replicate. lia.
  - apply Forall_app. split.
    + apply Forall_take, Forall_replicate, length_replicate.
    + apply Forall_replicate. by rewrite length_map.
  - by rewrite length_insert, length_replicate.
  - apply insert_rect; [|done]. apply Forall_replicate, length_replicate.
Qed.

End Progress.

Section Entries.
Context {F : Type} `{Scalar F} {Model Params : Type}.

Lemma length_diff (tv : list F) : length (diff tv) = (length tv - 1)%nat.
Proof.
  unfold diff. rewrite length_zip_with. destruct tv; simpl; lia.
Qed.

(** A run on well-shaped arguments, with a payoff matrix of the shape of
    the price matrix and an estimator that answers with one value per
    path, reaches the return. *)
Lemma lsmc_locals_progress (tv : list F) N rows K r
    (payoff_func : @payoff_fn F) type
    (fit_func : @fit_fn F Model Params) (pred_func : @pred_fn F Model Params)
    args payoff :
  (2 <= length tv)%nat -> length rows = length tv -> Np.rectangular N rows ->
  payoff_func (Arr2 N rows) K type = Ok payoff ->
  length payoff = length tv -> Np.rectangular N payoff ->
  (forall x y, exists fit, fit_func x y args = Ok fit) ->
  (forall x fit, exists EV_cont,
     pred_func x fit args = Ok EV_cont /\ length EV_cont = length x) ->
  exists tr l,
    lsmc_locals (Arr1 tv) (Arr2 N rows) K r payoff_func type
                fit_func pred_func args = (tr, Ok l).
Proof.
  intros Htv Hrows Hrect Hpayoff Hlen Hprect Hfit Hpred.
  unfold lsmc_locals, assert_. cbn [ndim len shape1 data1 data2].
  rewrite (proj2 (Nat.eqb_eq _ _) Hrows).
  rewrite !(bind_lift_eq _ _ tt) by reflexivity.
  eapply bind_invoke_progress; [exact Hpayoff|].
  replace (Z.of_nat (length tv) - 1) with (Z.of_nat (length tv - 1)) by lia.
  destruct (lsmc_backward_progress (length tv - 1) N rows payoff
              ((fun d => fexp (fmul (fopp r) d)) <$> diff tv)
              fit_func pred_func args) as (tr & [sr cf] & Hback);
    try done; try lia.
  { by rewrite length_fmap, length_diff. }
  change (map (fun d => fexp (fmul (fopp r) d)) (diff tv))
    with ((fun d => fexp (fmul (fopp r) d)) <$> diff tv).
  unfold mbind at 1, comp_bind at 1. rewrite Hback. by do 2 eexists.
Qed.

(** Every entry of the matrices the loop leaves: the stopping-rule entry
    is false where the payoff of its date is not positive, and the
    cashflow entry is the payoff of its date, in the last row, or that
    payoff times the stopping-rule entry, in the rows above. *)
Lemma tentative_entry M N X payoff discount_factor
    (fit_func : @fit_fn F Model Params) (pred_func : @pred_fn F Model Params)
    args tr (st : matrices) i n :
  lsmc_backward (Z.of_nat M) N X payoff discount_factor
                fit_func pred_func args = (tr, Ok st) ->
  Np.rectangular N payoff ->
  (i < M)%nat -> (n < N)%nat ->
  exists b p,
    Np.entry payoff (S i) n = Some p /\
    Np.entry st.1 i n = Some b /\
    (fgt p fzero = false -> b = false) /\
    (S i = M -> b = fgt p fzero) /\
    Np.entry st.2 i n
    = Some (if decide (S i = M) then p else fmul (of_bool b) p).
Proof.
  intros Hback Hprect Hi Hn.
  apply lsmc_backward_Ok in Hback
    as (Mn & payoff_M & row_M & cash_M & HM & Hshape & HpM & Hrow & HrowM
        & Hcash & HcashM & Hdates).
  assert (M = S Mn) as -> by lia.
  destruct (decide (i = Mn)) as [->|Hne].
  - pose proof (proj1 (Forall_lookup _ _) Hprect _ _ HpM) as Hlen.
    simpl in Hlen.
    destruct (lookup_lt_is_Some_2 payoff_M n) as [p Hp]; [lia|].
    rewrite broadcast_to_same in Hrow by (by rewrite length_fmap).
    rewrite broadcast_to_same in Hcash by done.
    injection Hrow as <-. injection Hcash as <-.
    exists (fgt p fzero), p. unfold Np.entry.
    rewrite HpM, HrowM, HcashM. simpl.
    rewrite list_lookup_fmap, Hp. simpl.
    split_and!; [done|done|congruence|done|by case_decide].
  - destruct (Hdates (S i)) as (cf_j & row & cash & _ & Hrow' & Hcash' & Hrows);
      [lia|].
    replace (S i - 1)%nat with i in * by lia.
    destruct Hrows as (payoff_j & X_j & d & fit & EV & decision & vals & Hrows).
    simpl in Hrows.
    destruct Hrows as (Hpj & Hlen_pj & _ & _ & _ & _ & _ & _ & Hvals & Hrow_eq
                       & Hcash_eq).
    destruct (lookup_lt_is_Some_2 payoff_j n) as [p Hp]; [lia|].
    assert (length row = N) as Hlen_row
      by (rewrite Hrow_eq, length_place; apply length_replicate).
    destruct (lookup_lt_is_Some_2 row n) as [b Hb]; [lia|].
    exists b, p. unfold Np.entry. rewrite Hpj, Hrow', Hcash'. simpl.
    split_and!; [done|done| |lia|].
    + intros Hotm. rewrite Hrow_eq in Hb.
      rewrite place_lookup_false in Hb
        by (by rewrite list_lookup_fmap, Hp, <- Hotm).
      rewrite lookup_replicate_2 in Hb by done. congruence.
    + rewrite Hcash_eq, lookup_zip_with, Hb, Hp. simpl.
      by case_decide; [lia|].
Qed.

Lemma mask_mul_entry (a : list (list bool)) (m : list (list F)) i n b c :
  Np.entry a i n = Some b -> Np.entry m i n = Some c ->
  Np.entry (mask_mul a m) i n = Some (fmul (of_bool b) c).
Proof.
  unfold Np.entry, mask_mul. intros Ha Hm. rewrite lookup_zip_with.
  destruct (a !! i) as [ra|]; [|done]. destruct (m !! i) as [rm|]; [|done].
  simpl in *. by rewrite lookup_zip_with, Ha, Hm.
Qed.

Lemma mask_mul_shape M N (a : list (list bool)) (m : list (list F)) :
  length a = M -> Np.rectangular N a -> length m = M -> Np.rectangular N m ->
  length (mask_mul a m) = M /\ Np.rectangular N (mask_mul a m).
Proof.
  intros Ha Ha_rect Hm Hm_rect. unfold mask_mul. split.
  - rewrite length_zip_with_l_eq; congruence.
  - apply Forall_lookup. intros i row. rewrite lookup_zip_with.
    destruct (a !! i) as [ra|] eqn:Hra; [|done].
    destruct (m !! i) as [rm|] eqn:Hrm; [|done]. simpl. intros [= <-].
    pose proof (proj1 (Forall_lookup _ _) Ha_rect _ _ Hra) as H1.
    pose proof (proj1 (Forall_lookup _ _) Hm_rect _ _ Hrm) as H2.
    simpl in H1, H2. rewrite length_zip_with_l_eq; congruence.
Qed.

End Entries.

(** ** The cashflow matrix, in exact arithmetic *)

Section RealCashflow.
Local Open Scope R_scope.
#[local] Arguments IZR : simpl never.
Context {Model Params : Type}.
Implicit Types (t X : ndarray Rnan) (K : Rnan) (type : string) (args : Params).
Implicit Types (payoff_func : @payoff_fn Rnan).
Implicit Types (fit_func : @fit_fn Rnan Model Params).
Implicit Types (pred_func : @pred_fn Rnan Model Params).

(** Every entry of the two final matrices, from the payoff of its date. *)
Lemma final_entry t X K r payoff_func type fit_func pred_func args tr l
    payoff i n :
  lsmc_locals t X K r payoff_func type fit_func pred_func args = (tr, Ok l) ->
  payoff_func X K type = Ok payoff ->
  Np.rectangular (shape1 X) payoff ->
  (S i < len t)%nat -> (n < shape1 X)%nat ->
  exists b p,
    Np.entry payoff (S i) n = Some p /\
    Np.entry (stopping_rule l) i n = Some b /\
    (fgt p fzero = false -> b = false) /\
    (finite p -> Np.entry (cashflow l) i n = Some (if b then p else Fin 0)).
Proof.
  intros (tv & N & rows & payoff' & st & tr' & Hrun)%lsmc_locals_Ok.
  simpl in Hrun.
  destruct Hrun as (-> & -> & _ & Hpayoff' & Hback & _ & Hsr & Hcf & _).
  simpl. intros Hpayoff Hrect Hi Hn.
  assert (payoff' = payoff) as -> by congruence.
  replace (Z.of_nat (length tv) - 1)%Z with (Z.of_nat (length tv - 1))
    in Hback by lia.
  destruct (tentative_entry _ _ _ _ _ _ _ _ _ st i n Hback Hrect)
    as (b0 & p & Hp & Hb0 & Hotm & _ & Hc); [lia|done|].
  apply lsmc_backward_Ok in Hback
    as (Mn & _ & _ & _ & HM & (Hlen & Hsr_rect & _) & _).
  assert (Np.entry (stopping_rule l) i n
          = Some (bool_decide (Scan.first_true_index st.1 n = Some i))) as Hb.
  { rewrite Hsr. apply (collapse_entry N); [done|lia|done]. }
  exists (bool_decide (Scan.first_true_index st.1 n = Some i)), p.
  split_and!; [done|done| |].
  - intros Hp0. apply bool_decide_eq_false_2. intros Hfirst.
    apply (first_true_index_Some N) in Hfirst as [Htrue _]; [|done..].
    specialize (Hotm Hp0). congruence.
  - intros Hfin. destruct p as [|x]; [done|].
    rewrite Hcf. rewrite <- Hsr.
    rewrite (mask_mul_entry _ _ _ _ _ _ Hb Hc). f_equal.
    case_bool_decide as Hfirst.
    + apply (first_true_index_Some N) in Hfirst as [Htrue _]; [|done..].
      assert (b0 = true) as -> by congruence.
      case_decide; simpl; f_equal; lra.
    + case_decide; [|destruct b0]; simpl; f_equal; lra.
Qed.

(** C10: the cashflow matrix starts as NaN everywhere, and every row is
    written before the collapse.  With a payoff matrix of the shape of the
    price matrix and without NaN, every entry of the final cashflow matrix
    is a number: the payoff of its exercise date where the final stopping
    rule is true, and 0 elsewhere. *)
Theorem cashflow_is_payoff_at_exercise
    t X K r payoff_func type fit_func pred_func args tr l payoff i n :
  lsmc_locals t X K r payoff_func type fit_func pred_func args = (tr, Ok l) ->
  payoff_func X K type = Ok payoff ->
  Np.rectangular (shape1 X) payoff ->
  (forall j k p, Np.entry payoff j k = Some p -> finite p) ->
  (S i < len t)%nat -> (n < shape1 X)%nat ->
  exists b p c,
    Np.entry (stopping_rule l) i n = Some b /\
    Np.entry payoff (S i) n = Some p /\
    Np.entry (cashflow l) i n = Some c /\
    c = (if b then p else Fin 0) /\
    finite c.
Proof.
  intros Hrun Hpayoff Hrect Hfinite Hi Hn.
  destruct (final_entry _ _ _ _ _ _ _ _ _ _ _ _ i n Hrun Hpayoff Hrect Hi Hn)
    as (b & p & Hp & Hb & _ & Hc).
  pose proof (Hfinite _ _ _ Hp) as Hfin.
  exists b, p, (if b then p else Fin 0).
  split_and!; [done|done|by apply Hc|done|by destruct b].
Qed.

End RealCashflow.

(** Three dates, two paths and a put with strike 40; the estimator
    predicts a continuation value of 0, so that a path in the money at the
    interior date is exercised there. *)
Section RealExamples.
Local Open Scope R_scope.
#[local] Arguments IZR : simpl never.

Lemma three_date_put_payoff :
  Demo.put_payoff
    (Arr2 2 [[Fin 40; Fin 40]; [Fin 30; Fin 45]; [Fin 38; Fin 35]])
    (Fin 40) "PUT"%string
  = Ok [[Fin 0; Fin 0]; [Fin 10; Fin 0]; [Fin 2; Fin 5]].
Proof.
  repeat (cbv -[Rplus Rmult Rminus Ropp Rdiv Rinv IZR exp Rlt_dec Req_dec_T];
          match goal with
          | |- context [Rlt_dec ?a ?b] => destruct (Rlt_dec a b); try lra
          end).
  repeat f_equal; lra.
Qed.

Lemma three_date_put_locals :
  exists tr disc price,
    lsmc_locals (Arr1 [Fin 0; Fin 1; Fin 2])
      (Arr2 2 [[Fin 40; Fin 40]; [Fin 30; Fin 45]; [Fin 38; Fin 35]])
      (Fin 40) (Fin (6 / 100)) Demo.put_payoff "PUT"%string
      (fun _ _ _ => Ok tt)
      (fun x _ _ => Ok (replicate (length x) (Fin 0))) tt
    = (tr,
       Ok (Locals [[true; false]; [false; true]]
                  [[Fin 10; Fin 0]; [Fin 0; Fin 5]] disc price)).
Proof.
  do 3 eexists.
  repeat (cbv -[Rplus Rmult Rminus Ropp Rdiv Rinv IZR exp Rlt_dec Req_dec_T];
          match goal with
          | |- context [Rlt_dec ?a ?b] => destruct (Rlt_dec a b); try lra
          end).
  f_equal. f_equal. f_equal.
  repeat f_equal; lra.
Qed.

Lemma cashflow_is_payoff_at_exercise_witness :
  let payoff := [[Fin 0; Fin 0]; [Fin 10; Fin 0]; [Fin 2; Fin 5]] in
  exists tr l,
    lsmc_locals (Arr1 [Fin 0; Fin 1; Fin 2])
      (Arr2 2 [[Fin 40; Fin 40]; [Fin 30; Fin 45]; [Fin 38; Fin 35]])
      (Fin 40) (Fin (6 / 100)) Demo.put_payoff "PUT"%string
      (fun _ _ _ => Ok tt)
      (fun x _ _ => Ok (replicate (length x) (Fin 0))) tt
    = (tr, Ok l) /\
    stopping_rule l = [[true; false]; [false; true]] /\
    cashflow l = [[Fin 10; Fin 0]; [Fin 0; Fin 5]] /\
    exists b p c,
      Np.entry (stopping_rule l) 0 0 = Some b /\
      Np.entry payoff 1 0 = Some p /\
      Np.entry (cashflow l) 0 0 = Some c /\
      c = (if b then p else Fin 0) /\
      finite c.
Proof.
  intros payoff.
  destruct three_date_put_locals as (tr & disc & price & Hrun).
  eexists _, _. split; [exact Hrun|]. split; [reflexivity|].
  split; [reflexivity|].
  apply (cashflow_is_payoff_at_exercise _ _ _ _ _ _ _ _ _ _ _
           payoff 0%nat 0%nat Hrun three_date_put_payoff).
  - repeat constructor.
  - intros [|[|[|j]]] [|[|k]] p; simpl; intros [= <-]; exact I.
  - simpl. lia.
  - simpl. lia.
Defined.

End RealExamples.

(** * Further properties of the routine *)

(** ** Shapes and exercise dates *)

Section Shapes.
Context {F : Type} `{Scalar F} {Model Params : Type}.
Implicit Types (t X : ndarray F) (K r : F) (type : string) (args : Params).
Implicit Types (payoff_func : @payoff_fn F) (fit_func : @fit_fn F Model Params).
Implicit Types (pred_func : @pred_fn F Model Params).

Lemma length_matvec_transpose N (m : list (list F)) (v : list F) :
  length (matvec (transpose N m) v) = N.
Proof. unfold matvec, transpose. by rewrite !length_fmap, length_seq. Qed.

(** X1: a run that reaches the return had at least two dates, and its
    stopping rule and cashflow matrix have one row per exercise date
    ([len(t) - 1] rows) and one entry per path in every row; there is one
    discounted cashflow per path. *)
Theorem returned_matrices_shape
    t X K r payoff_func type fit_func pred_func args tr l :
  lsmc_locals t X K r payoff_func type fit_func pred_func args = (tr, Ok l) ->
  (2 <= len t)%nat /\
  length (stopping_rule l) = (len t - 1)%nat /\
  Np.rectangular (shape1 X) (stopping_rule l) /\
  length (cashflow l) = (len t - 1)%nat /\
  Np.rectangular (shape1 X) (cashflow l) /\
  length (discounted l) = shape1 X.
Proof.
  intros (tv & N & rows & payoff & st & tr' & Hrun)%lsmc_locals_Ok.
  simpl in Hrun.
  destruct Hrun as (-> & -> & _ & _ & Hback & _ & Hsr & Hcf & Hdisc & _).
  apply lsmc_backward_Ok in Hback
    as (Mn & _ & _ & _ & HM & (Hsr_len & Hsr_rect & Hcf_len & Hcf_rect) & _).
  simpl.
  destruct (mask_mul_shape (S Mn) N (Np.collapse st.1) st.2)
    as [Hlen Hrect]; try done.
  { by rewrite collapse_length. }
  { by apply collapse_rect. }
  rewrite Hsr, Hcf, Hdisc, collapse_length, length_matvec_transpose.
  split_and!; try done; try lia. by apply collapse_rect.
Qed.

(** X2: exercise happens only in the money: where the final stopping rule
    is true, the payoff of that exercise date is strictly positive. *)
Theorem exercise_only_in_the_money
    t X K r payoff_func type fit_func pred_func args tr l payoff i n :
  lsmc_locals t X K r payoff_func type fit_func pred_func args = (tr, Ok l) ->
  payoff_func X K type = Ok payoff ->
  Np.rectangular (shape1 X) payoff ->
  Np.entry (stopping_rule l) i n = Some true ->
  exists p, Np.entry payoff (S i) n = Some p /\ fgt p fzero = true.
Proof.
  intros (tv & N & rows & payoff' & st & tr' & Hrun)%lsmc_locals_Ok.
  simpl in Hrun.
  destruct Hrun as (-> & -> & _ & Hpayoff' & Hback & _ & Hsr & _).
  simpl. intros Hpayoff Hrect Htrue.
  assert (payoff' = payoff) as -> by congruence.
  pose proof Hback as (Mn & _ & _ & _ & HM & (Hlen & Hsr_rect & _) & _)%lsmc_backward_Ok.
  rewrite HM in Hback. rewrite Hsr in Htrue.
  assert (i < S Mn /\ n < N)%nat as [Hi Hn].
  { unfold Np.entry in Htrue.
    destruct (Np.collapse st.1 !! i) as [row|] eqn:Hrow; [|done].
    simpl in Htrue.
    pose proof (proj1 (Forall_lookup _ _) (collapse_rect _ _ Hsr_rect) _ _ Hrow)
      as Hlen_row.
    simpl in Hlen_row. apply lookup_lt_Some in Hrow, Htrue.
    rewrite collapse_length in Hrow. lia. }
  destruct (tentative_entry _ _ _ _ _ _ _ _ _ st i n Hback Hrect Hi Hn)
    as (b & p & Hp & Hb & Hotm & _).
  rewrite (collapse_entry N) in Htrue by (done || lia).
  injection Htrue as Hfirst. apply bool_decide_eq_true_1 in Hfirst.
  apply (first_true_index_Some N) in Hfirst as [Hfirst _]; [|done..].
  exists p. split; [done|].
  destruct (fgt p fzero) eqn:Hitm; [done|].
  specialize (Hotm eq_refl). congruence.
Qed.

End Shapes.

Lemma returned_matrices_shape_witness :
  Demo.run4 = (Demo.trace4, Ok Demo.locals4) /\
  length (stopping_rule Demo.locals4) = 3%nat /\
  Np.rectangular 3 (cashflow Demo.locals4).
Proof.
  assert (Demo.run4 = (Demo.trace4, Ok Demo.locals4)) as Hrun
    by (vm_compute; reflexivity).
  split; [exact Hrun|].
  destruct (returned_matrices_shape _ _ _ _ _ _ _ _ _ _ _ Hrun)
    as (_ & Hlen & _ & _ & Hrect & _).
  split; [exact Hlen|exact Hrect].
Defined.

Lemma exercise_only_in_the_money_witness :
  Demo.run4 = (Demo.trace4, Ok Demo.locals4) /\
  exists p, Np.entry Demo.payoff4 2 1 = Some p /\ fgt p fzero = true.
Proof.
  assert (Demo.run4 = (Demo.trace4, Ok Demo.locals4)) as Hrun
    by (vm_compute; reflexivity).
  split; [exact Hrun|].
  apply (exercise_only_in_the_money _ _ _ _ _ _ _ _ _ _ _ Demo.payoff4
           1%nat 1%nat Hrun).
  - vm_compute. reflexivity.
  - repeat constructor.
  - reflexivity.
Defined.

(** ** Cashflows and discounting, in exact arithmetic *)

Section RealDiscount.
Local Open Scope R_scope.
#[local] Arguments IZR : simpl never.
Context {Model Params : Type}.
Implicit Types (X : ndarray Rnan) (K : Rnan) (type : string) (args : Params).
Implicit Types (payoff_func : @payoff_fn Rnan).
Implicit Types (fit_func : @fit_fn Rnan Model Params).
Implicit Types (pred_func : @pred_fn Rnan Model Params).

Lemma real_gt_zero_inv (a : Rnan) :
  fgt a fzero = true -> exists x, a = Fin x /\ 0 < x.
Proof.
  destruct a as [|x]; simpl; [done|]. unfold RealScalar.gt.
  destruct (Rlt_dec 0 x); [eauto|done].
Qed.

(** X3: with a payoff matrix without NaN, every entry of the final
    cashflow matrix is a number that is not negative, and it is strictly
    positive exactly where the final stopping rule is true. *)
Theorem cashflow_positive_iff_exercised
    (t : ndarray Rnan) X K r payoff_func type fit_func pred_func args tr l
    payoff i n :
  lsmc_locals t X K r payoff_func type fit_func pred_func args = (tr, Ok l) ->
  payoff_func X K type = Ok payoff ->
  Np.rectangular (shape1 X) payoff ->
  (forall j k p, Np.entry payoff j k = Some p -> finite p) ->
  (S i < len t)%nat -> (n < shape1 X)%nat ->
  exists c,
    Np.entry (cashflow l) i n = Some (Fin c) /\
    0 <= c /\
    (Np.entry (stopping_rule l) i n = Some true <-> 0 < c).
Proof.
  intros Hrun Hpayoff Hrect Hfinite Hi Hn.
  destruct (final_entry _ _ _ _ _ _ _ _ _ _ _ _ i n Hrun Hpayoff Hrect Hi Hn)
    as (b & p & Hp & Hb & Hotm & Hc).
  pose proof (Hfinite _ _ _ Hp) as Hfin. specialize (Hc Hfin).
  destruct b.
  - destruct (fgt p fzero) eqn:Hitm; [|by specialize (Hotm eq_refl)].
    apply real_gt_zero_inv in Hitm as (x & -> & Hx).
    exists x. split_and!; [done|lra|]. by split.
  - exists 0. split_and!; [done|lra|]. rewrite Hb. split; [done|lra].
Qed.

Lemma diff_cons (a b : Rnan) (v : list Rnan) :
  diff (a :: b :: v) = fsub b a :: diff (b :: v).
Proof. reflexivity. Qed.

End RealDiscount.

Section RealDiscountExamples.
Local Open Scope R_scope.
#[local] Arguments IZR : simpl never.

Lemma payoff2_finite j k p : Np.entry Demo.payoff2 j k = Some p -> finite p.
Proof.
  destruct j as [|[|j]], k as [|[|[|k]]]; simpl; intros [= <-]; exact I.
Qed.

Lemma cashflow_positive_iff_exercised_witness :
  exists c,
    Np.entry [[Fin 10; Fin 0; Fin 2]] 0 2 = Some (Fin c) /\
    0 <= c /\
    (Np.entry [[true; false; true]] 0 2 = Some true <-> 0 < c).
Proof.
  pose proof (two_date_put_locals (6 / 100) Demo.put_payoff
                Demo.fit_mean Demo.pred_mean tt [Fin 0; Fin 0; Fin 0]
                put_payoff2) as Hrun.
  apply (cashflow_positive_iff_exercised _ _ _ _ _ _ _ _ _ _ _
           Demo.payoff2 0%nat 2%nat Hrun put_payoff2).
  - repeat constructor.
  - exact payoff2_finite.
  - simpl. lia.
  - simpl. lia.
Defined.

End RealDiscountExamples.

(** ** The calls to the estimator *)

Section CallProtocol.
Context {F : Type} `{Scalar F} {Model Params : Type}.
Context (N : nat) (X payoff : list (list F)) (discount_factor : list F)
        (fit_func : @fit_fn F Model Params)
        (pred_func : @pred_fn F Model Params) (args : Params).

Lemma date_calls_ext (cf cf' : list (list F)) j :
  cf !! j = cf' !! j ->
  date_calls X payoff discount_factor cf j
  = date_calls X payoff discount_factor cf' j.
Proof. unfold date_calls. by intros ->. Qed.

Lemma lsmc_step_calls j (st st' : matrices) tr :
  lsmc_step N X payoff discount_factor fit_func pred_func args j st
    = (tr, Ok st') ->
  tr = date_calls X payoff discount_factor st.2 j /\ length tr = 2%nat.
Proof.
  destruct st as [sr cf]. intros Hstep. simpl in *. unfold lsmc_step in Hstep.
  apply bind_lift_Ok in Hstep as (payoff_j & Hpj%getrow_nat & Hstep).
  apply bind_lift_Ok in Hstep
    as (x & (X_j & HXj & HlenX & ->)%getitem_row_mask_nat & Hstep).
  apply bind_lift_Ok in Hstep
    as (c & (cf_j & Hcfj & Hlenc & ->)%getitem_row_mask_nat & Hstep).
  apply bind_lift_Ok in Hstep as (d & Hd%getitem_nat & Hstep).
  apply bind_invoke_Ok in Hstep as (fit & tr1 & Hfit & Hstep & ->).
  apply bind_invoke_Ok in Hstep as (EV & tr2 & Hpred & Hstep & ->).
  apply bind_lift_Ok in Hstep as (ex & _ & Hstep).
  apply bind_lift_Ok in Hstep as (decision & _ & Hstep).
  apply bind_lift_Ok in Hstep as (sr1 & _ & Hstep).
  apply bind_lift_Ok in Hstep as (row & _ & Hstep).
  apply bind_lift_Ok in Hstep as (product & _ & Hstep).
  apply bind_lift_mret_Ok in Hstep as (cf1 & _ & _ & ->).
  unfold date_calls. by rewrite Hpj, HXj, Hcfj, Hd.
Qed.

Lemma backward_loop_calls M k (st st' : matrices) tr :
  shaped M N st -> (k < M)%nat ->
  (forall i, (i < k)%nat -> st.1 !! i = Some (replicate N false)) ->
  for_each (range_down k)
    (lsmc_step N X payoff discount_factor fit_func pred_func args) st
    = (tr, Ok st') ->
  tr = flat_map (date_calls X payoff discount_factor st'.2) (range_down k) /\
  length tr = (2 * k)%nat.
Proof.
  revert st tr. induction k as [|k IH]; intros st tr Hshape Hk Hfalse Hloop.
  { by injection Hloop as <- <-. }
  simpl in Hloop.
  apply bind_Ok in Hloop as (st1 & tr1 & tr2 & Hstep & Hloop & ->).
  destruct (lsmc_step_calls _ _ _ _ Hstep) as [Htr1 Hlen1].
  eapply lsmc_step_Ok in Hstep
    as (row0 & cf_j & row & cash & Hrow0 & Hcfj & Hrows & ->);
    [|exact Hshape|lia].
  replace (S k - 1)%nat with k in * by lia.
  rewrite Hfalse in Hrow0 by lia. injection Hrow0 as <-.
  destruct (step_rows_lengths _ _ _ _ _ _ _ _ _ _ _ _ Hrows) as [Hrow Hcash];
    [apply length_replicate|].
  destruct Hshape as (Hsr & Hsr_rect & Hcf & Hcf_rect).
  assert (shaped M N (<[k:=row]> st.1, <[k:=cash]> st.2)) as Hshape1.
  { split_and!; simpl; rewrite ?length_insert; try done;
      by apply insert_rect. }
  assert (forall i, (i < k)%nat ->
            (<[k:=row]> st.1, <[k:=cash]> st.2).1 !! i
            = Some (replicate N false)) as Hfalse1.
  { intros i Hi. simpl. rewrite list_lookup_insert_ne by lia.
    apply Hfalse. lia. }
  pose proof Hloop as Hloop'.
  apply backward_loop_Ok with (M := M) in Hloop' as (_ & Hkeep & _);
    [|done|lia|done].
  apply IH in Hloop as [Htr2 Hlen2]; [|done|lia|done].
  split.
  - simpl. f_equal; [|done]. rewrite Htr1. apply date_calls_ext.
    destruct (Hkeep (S k)) as [_ ->]; [lia|]. simpl.
    by rewrite list_lookup_insert_ne by lia.
  - rewrite length_app. lia.
Qed.

(** The loop that [lsmc_backward] runs, and the matrices it starts from. *)
Lemma lsmc_backward_loop M (st : matrices) tr :
  lsmc_backward M N X payoff discount_factor fit_func pred_func args
    = (tr, Ok st) ->
  exists st0,
    1 <= M /\ shaped (Z.to_nat M) N st0 /\
    (forall i, (i < Z.to_nat (M - 1))%nat ->
               st0.1 !! i = Some (replicate N false)) /\
    for_each (range_down (Z.to_nat (M - 1)))
      (lsmc_step N X payoff discount_factor fit_func pred_func args) st0
      = (tr, Ok st).
Proof.
  unfold lsmc_backward. intros Hrun.
  apply bind_lift_Ok in Hrun as ([] & HM & Hrun).
  destruct (Z.ltb_spec M 0) as [|HM0]; [discriminate|]. clear HM.
  apply bind_lift_Ok in Hrun as (payoff_M & HpM & Hrun).
  apply bind_lift_Ok in Hrun as (sr0 & Hsr0 & Hrun).
  apply bind_lift_Ok in Hrun as (cf0 & Hcf0 & Hrun).
  unfold Index.setrow in Hcf0.
  apply result_bind_Ok in Hcf0 as (k & Hk & Hcf0).
  apply norm_index_Ok in Hk as (Hk & Hk0 & Hk1).
  rewrite length_replicate in Hk, Hk1.
  assert (1 <= M) as HM1 by lia.
  assert (k = Z.to_nat (M - 1)) as -> by lia.
  set (Mn := Z.to_nat (M - 1)) in *.
  assert (Z.to_nat M = S Mn) as HMn by lia.
  apply result_bind_Ok in Hcf0 as (cash_M & Hcash & [= <-]).
  unfold Index.setrows_from in Hsr0.
  apply result_bind_Ok in Hsr0 as (row_M & Hrow & [= <-]).
  rewrite length_replicate in Hrun.
  assert (Index.slice_start (M - 1) (Z.to_nat M) = Mn) as Hslice.
  { unfold Index.slice_start. destruct (Z.ltb_spec (M - 1) 0); lia. }
  rewrite Hslice, HMn in Hrun.
  rewrite take_replicate, Nat.min_l in Hrun by lia.
  replace (S Mn - Mn)%nat with 1%nat in Hrun by lia.
  pose proof (broadcast_to_length _ _ _ Hrow) as Hrow_len.
  pose proof (broadcast_to_length _ _ _ Hcash) as Hcash_len.
  eexists. split; [done|]. split_and!; [split_and!|..|exact Hrun];
    cbn [fst snd].
  - rewrite length_app, !length_replicate. simpl. lia.
  - apply Forall_app. split; [apply Forall_replicate, length_replicate|].
    by repeat constructor.
  - rewrite length_insert, length_replicate. lia.
  - apply insert_rect; [|done]. apply Forall_replicate, length_replicate.
  - intros i Hi. rewrite lookup_app_l by (rewrite length_replicate; lia).
    by apply lookup_replicate_2.
Qed.

Lemma lsmc_backward_calls M (st : matrices) tr :
  lsmc_backward M N X payoff discount_factor fit_func pred_func args
    = (tr, Ok st) ->
  1 <= M /\
  tr = flat_map (date_calls X payoff discount_factor st.2)
                (range_down (Z.to_nat (M - 1))) /\
  length tr = (2 * Z.to_nat (M - 1))%nat.
Proof.
  intros (st0 & HM & Hshape & Hfalse & Hloop)%lsmc_backward_loop.
  split; [done|].
  eapply backward_loop_calls; [exact Hshape|lia|exact Hfalse|exact Hloop].
Qed.

End CallProtocol.

Section CallProtocolRoutine.
Context {F : Type} `{Scalar F} {Model Params : Type}.
Implicit Types (t X : ndarray F) (K r : F) (type : string) (args : Params).
Implicit Types (payoff_func : @payoff_fn F) (fit_func : @fit_fn F Model Params).
Implicit Types (pred_func : @pred_fn F Model Params).

(** X6: a run that returns called the payoff function once, first, and then,
    for each interior date from the last but one down to the second, the
    fit function and right after it the prediction function, on the states
    of the paths that are in the money at that date; the fit's targets are
    the date's row of the cashflow matrix of the loop, discounted one step.
    With [len t] dates that is 2 * len t - 3 calls. *)
Theorem estimator_called_once_per_interior_date
    t X K r payoff_func type fit_func pred_func args tr price :
  lsmc t X K r payoff_func type fit_func pred_func args = (tr, Ok price) ->
  exists payoff st,
    let discount_factor := (fun d => fexp (fmul (fopp r) d)) <$> diff (data1 t) in
    payoff_func X K type = Ok payoff /\
    lsmc_backward (Z.of_nat (len t) - 1) (shape1 X) (data2 X) payoff
                  discount_factor fit_func pred_func args
      = (tail tr, Ok st) /\
    tr = CallPayoff X K type
           :: flat_map (date_calls (data2 X) payoff discount_factor st.2)
                       (range_down (len t - 2)) /\
    length tr = (2 * len t - 3)%nat.
Proof.
  unfold lsmc.
  intros (l & tr1 & tr2 & Hrun & [= <- <-] & ->)%bind_Ok.
  rewrite app_nil_r.
  apply lsmc_locals_Ok in Hrun
    as (tv & N & rows & payoff & st & tr' & Hinv). simpl in Hinv.
  destruct Hinv as (-> & -> & Hlen & Hpayoff & Hback & -> & _).
  exists payoff, st. simpl. split_and!; [done|done| |].
  - f_equal.
    apply lsmc_backward_calls in Hback as (_ & -> & _).
    do 2 f_equal. lia.
  - apply lsmc_backward_calls in Hback as (HM & _ & ->). simpl. lia.
Qed.

End CallProtocolRoutine.

Lemma estimator_called_once_per_interior_date_witness :
  exists payoff st,
    Demo.put_payoff Demo.X4 40%float "PUT" = Ok payoff /\
    lsmc_backward 3 3 (data2 Demo.X4) payoff [1; 1; 1]%float
                  Demo.fit_mean Demo.pred_mean tt
      = (tail Demo.trace4, Ok st) /\
    Demo.trace4
    = CallPayoff Demo.X4 40%float "PUT"
        :: flat_map (date_calls (data2 Demo.X4) payoff [1; 1; 1]%float st.2)
                    (range_down 2) /\
    length Demo.trace4 = 5%nat.
Proof.
  assert (lsmc Demo.t4 Demo.X4 40%float 0%float Demo.put_payoff "PUT"
               Demo.fit_mean Demo.pred_mean tt
          = (Demo.trace4, Ok (13 / 3)%float)) as Hrun
    by (vm_compute; reflexivity).
  destruct (estimator_called_once_per_interior_date _ _ _ _ _ _ _ _ _ _ _ Hrun)
    as (payoff & st & Hpayoff & Hback & Htr & Hlen).
  exists payoff, st. split_and!; [exact Hpayoff| |exact Htr|exact Hlen].
  vm_compute in Hback. vm_compute. exact Hback.
Defined.

(** ** Runs that end in an exception *)

Section Failures.
Context {F : Type} `{Scalar F} {Model Params : Type}.

Lemma bind_Raise {A B} (m : comp F A) (k : A -> comp F B) tr e :
  m = (tr, Raise e) -> m ≫= k = (tr, Raise e).
Proof. by intros ->. Qed.

Lemma bind_invoke_Raise {A B} c (r : result A) (k : A -> comp F B) e :
  r = Raise e -> invoke c r ≫= k = ([c], Raise e).
Proof. by intros ->. Qed.

Lemma bind_invoke_cons {A B} c (r : result A) (k : A -> comp F B) a tr b :
  r = Ok a -> k a = (tr, b) -> invoke c r ≫= k = (c :: tr, b).
Proof. intros -> Hk. unfold mbind, comp_bind, invoke. by rewrite Hk. Qed.

Lemma broadcast_to_ill_sized {A} n (v : list A) :
  length v <> n -> length v <> 1%nat ->
  Index.broadcast_to n v = Raise ValueError.
Proof.
  intros Hn H1. unfold Index.broadcast_to.
  destruct (Nat.eqb_spec (length v) n); [done|].
  by destruct v as [|? [|? ?]].
Qed.

Lemma broadcast2_ill_sized {A B C} (f : A -> B -> C) a b :
  length b <> length a -> length b <> 1%nat ->
  Index.broadcast2 f a b = Raise ValueError \/
  length a = 1%nat /\
  exists c, Index.broadcast2 f a b = Ok c /\ length c = length b.
Proof.
  intros Hab Hb. unfold Index.broadcast2.
  destruct (Nat.eqb_spec (length a) (length b)); [congruence|].
  destruct a as [|x [|x' a]].
  - destruct b as [|y [|y' b]]; [done|done|by left].
  - right. split; [done|]. eexists. split; [done|]. by rewrite length_map.
  - destruct b as [|y [|y' b]]; [by left|done|by left].
Qed.

Context (N : nat) (X payoff : list (list F)) (discount_factor : list F)
        (fit_func : @fit_fn F Model Params)
        (pred_func : @pred_fn F Model Params) (args : Params).

(** The pass at date [j] up to the call of the fit function, when that
    call raises. *)
Lemma lsmc_step_fit_Raise j (st : matrices) payoff_j X_j cf_j d e :
  payoff !! j = Some payoff_j -> X !! j = Some X_j ->
  st.2 !! j = Some cf_j -> discount_factor !! j = Some d ->
  length payoff_j = length X_j -> length payoff_j = length cf_j ->
  let itm := map (fun p => fgt p fzero) payoff_j in
  let x := Index.compress itm X_j in
  let y := map (fun c => fmul c d) (Index.compress itm cf_j) in
  fit_func x y args = Raise e ->
  lsmc_step N X payoff discount_factor fit_func pred_func args j st
  = ([CallFit x y], Raise e).
Proof.
  destruct st as [sr cf]. cbn [fst snd].
  intros Hpj HXj Hcfj Hd HlenX Hlenc Hfit.
  unfold lsmc_step.
  rewrite (bind_lift_eq _ _ payoff_j) by (by apply getrow_nat).
  rewrite (bind_lift_eq _ _ (Index.compress
             (map (fun p => fgt p fzero) payoff_j) X_j)).
  2:{ apply getitem_row_mask_nat. exists X_j.
      by rewrite length_map, HlenX. }
  rewrite (bind_lift_eq _ _ (Index.compress
             (map (fun p => fgt p fzero) payoff_j) cf_j)).
  2:{ apply getitem_row_mask_nat. exists cf_j.
      by rewrite length_map, Hlenc. }
  rewrite (bind_lift_eq _ _ d) by (by apply getitem_nat).
  by apply bind_invoke_Raise.
Qed.

(** The pass at date [j] when the prediction has neither one value per
    in-the-money path nor a single value. *)
Lemma lsmc_step_pred_ill_sized j (st : matrices) payoff_j X_j cf_j d row0
    fit EV_cont :
  (1 <= j)%nat ->
  payoff !! j = Some payoff_j -> X !! j = Some X_j ->
  st.2 !! j = Some cf_j -> discount_factor !! j = Some d ->
  st.1 !! (j - 1)%nat = Some row0 ->
  length payoff_j = length X_j -> length payoff_j = length cf_j ->
  length payoff_j = length row0 ->
  let itm := map (fun p => fgt p fzero) payoff_j in
  let x := Index.compress itm X_j in
  let y := map (fun c => fmul c d) (Index.compress itm cf_j) in
  fit_func x y args = Ok fit -> pred_func x fit args = Ok EV_cont ->
  length EV_cont <> length x -> length EV_cont <> 1%nat ->
  lsmc_step N X payoff discount_factor fit_func pred_func args j st
  = ([CallFit x y; CallPredict x], Raise ValueError).
Proof.
  destruct st as [sr cf]. cbn [fst snd].
  intros Hj Hpj HXj Hcfj Hd Hrow0 HlenX Hlenc Hlen0 Hfit Hpred HEV HEV1.
  set (itm := map (fun p => fgt p fzero) payoff_j) in *.
  assert (length itm = length payoff_j) as Hitm
    by (unfold itm; by rewrite length_map).
  unfold lsmc_step. fold itm.
  rewrite (bind_lift_eq _ _ payoff_j) by (by apply getrow_nat).
  fold itm.
  rewrite (bind_lift_eq _ _ (Index.compress itm X_j)).
  2:{ apply getitem_row_mask_nat. exists X_j. by rewrite Hitm, HlenX. }
  rewrite (bind_lift_eq _ _ (Index.compress itm cf_j)).
  2:{ apply getitem_row_mask_nat. exists cf_j. by rewrite Hitm, Hlenc. }
  rewrite (bind_lift_eq _ _ d) by (by apply getitem_nat).
  eapply bind_invoke_cons; [exact Hfit|].
  eapply bind_invoke_cons; [exact Hpred|].
  rewrite (bind_lift_eq _ _ (Index.compress itm payoff_j)).
  2:{ apply getitem_row_mask_nat. exists payoff_j. by rewrite Hitm. }
  rewrite !length_compress in HEV by congruence.
  destruct (broadcast2_ill_sized fgt (Index.compress itm payoff_j) EV_cont)
    as [Hb|(Hone & decision & Hb & Hdec)]; try done.
  { by rewrite length_compress. }
  { by apply bind_Raise; rewrite Hb. }
  rewrite length_compress in Hone by done.
  rewrite (bind_lift_eq _ _ decision) by done.
  apply bind_Raise. unfold lift. f_equal.
  unfold Index.setitem_row_mask.
  replace (Z.of_nat j - 1) with (Z.of_nat (j - 1)) by lia.
  rewrite norm_index_nat by (by eapply lookup_lt_Some). simpl.
  rewrite (proj2 (getrow_nat _ _ _) Hrow0). simpl.
  unfold Index.setitem_mask.
  rewrite (proj2 (Nat.eqb_eq _ _)) by congruence.
  rewrite broadcast_to_ill_sized by congruence. done.
Qed.

Context (M : nat) (HM : (1 <= M)%nat)
        (Hpayoff_len : length payoff = S M) (Hpayoff : Np.rectangular N payoff).

(** The matrices the loop starts from. *)
Lemma lsmc_backward_init :
  exists payoff_M (st0 : matrices),
    payoff !! M = Some payoff_M /\ shaped M N st0 /\
    st0.2 !! (M - 1)%nat = Some payoff_M /\
    lsmc_backward (Z.of_nat M) N X payoff discount_factor
                  fit_func pred_func args
    = for_each (range_down (M - 1))
        (lsmc_step N X payoff discount_factor fit_func pred_func args) st0.
Proof.
  unfold lsmc_backward.
  destruct (lookup_lt_is_Some_2 payoff M) as [payoff_M HpM]; [lia|].
  pose proof (proj1 (Forall_lookup _ _) Hpayoff _ _ HpM) as Hlen. simpl in Hlen.
  exists payoff_M. eexists. split; [done|].
  rewrite (bind_lift_eq _ _ tt).
  2:{ destruct (Z.ltb_spec (Z.of_nat M) 0); [lia|done]. }
  rewrite (bind_lift_eq _ _ payoff_M) by (by apply getrow_nat).
  erewrite bind_lift_eq.
  2:{ unfold Index.setrows_from. rewrite broadcast_to_same; [done|].
      by rewrite length_map. }
  replace (Z.of_nat M - 1) with (Z.of_nat (M - 1)) by lia.
  erewrite bind_lift_eq.
  2:{ apply setrow_nat. rewrite length_replicate.
      split; [lia|]. eexists. split; [by apply broadcast_to_same|done]. }
  rewrite !Nat2Z.id, length_replicate.
  assert (Index.slice_start (Z.of_nat (M - 1)) M = (M - 1)%nat) as ->.
  { unfold Index.slice_start.
    destruct (Z.ltb_spec (Z.of_nat (M - 1)) 0); lia. }
  split_and!; [split_and!|..|reflexivity]; simpl.
  - rewrite length_app, length_take, !length_replicate. lia.
  - apply Forall_app. split.
    + apply Forall_take, Forall_replicate, length_replicate.
    + apply Forall_replicate. by rewrite length_map.
  - by rewrite length_insert, length_replicate.
  - apply insert_rect; [|done]. apply Forall_replicate, length_replicate.
  - apply list_lookup_insert_eq. rewrite length_replicate. lia.
Qed.

End Failures.

Section FailuresRoutine.
Context {F : Type} `{Scalar F} {Model Params : Type}.
Implicit Types (K r : F) (type : string) (args : Params).
Implicit Types (payoff_func : @payoff_fn F) (fit_func : @fit_fn F Model Params).
Implicit Types (pred_func : @pred_fn F Model Params).

(** An exception of the backward loop leaves the routine, after the call
    of the payoff function. *)
Lemma lsmc_backward_Raise (tv : list F) N rows K r payoff_func type
    fit_func pred_func args payoff tr e :
  length rows = length tv ->
  payoff_func (Arr2 N rows) K type = Ok payoff ->
  lsmc_backward (Z.of_nat (length tv) - 1) N rows payoff
                (map (fun d => fexp (fmul (fopp r) d)) (diff tv))
                fit_func pred_func args = (tr, Raise e) ->
  lsmc (Arr1 tv) (Arr2 N rows) K r payoff_func type fit_func pred_func args
  = (CallPayoff (Arr2 N rows) K type :: tr, Raise e).
Proof.
  intros Hrows Hpayoff Hback. unfold lsmc. apply bind_Raise.
  unfold lsmc_locals, assert_. cbn [ndim len shape1 data1 data2].
  rewrite (proj2 (Nat.eqb_eq _ _) Hrows).
  rewrite !(bind_lift_eq _ _ tt) by reflexivity.
  eapply bind_invoke_cons; [exact Hpayoff|].
  by apply bind_Raise.
Qed.

(** X7: on a time grid of at least two dates, a price matrix with one row
    per date, a payoff matrix of the same shape and an estimator that does
    not raise and predicts one value per path it is given, the routine
    returns a price: nothing in it raises. *)
Theorem well_shaped_run_returns (tv : list F) N rows K r payoff_func type
    fit_func pred_func args payoff :
  (2 <= length tv)%nat -> length rows = length tv -> Np.rectangular N rows ->
  payoff_func (Arr2 N rows) K type = Ok payoff ->
  length payoff = length tv -> Np.rectangular N payoff ->
  (forall x y, exists fit, fit_func x y args = Ok fit) ->
  (forall x fit, exists EV_cont,
     pred_func x fit args = Ok EV_cont /\ length EV_cont = length x) ->
  exists tr price,
    lsmc (Arr1 tv) (Arr2 N rows) K r payoff_func type fit_func pred_func args
    = (tr, Ok price).
Proof.
  intros Htv Hrows Hrect Hpayoff Hlen Hprect Hfit Hpred.
  destruct (lsmc_locals_progress tv N rows K r payoff_func type
              fit_func pred_func args payoff) as (tr & l & Hrun); try done.
  exists tr, (price l). by apply lsmc_Ok.
Qed.

(** X8: on well-shaped arguments with at least three dates, an estimator
    whose fit function raises stops the routine at the first pass of the
    loop, the one at the last date but one: the exception leaves the
    routine after the payoff call and that one fit call (on the states of
    the paths in the money at that date and their discounted payoffs at
    maturity), and the prediction function is never called. *)
Theorem fit_failure_propagates (tv : list F) N rows K r payoff_func type
    fit_func pred_func args payoff e :
  (3 <= length tv)%nat -> length rows = length tv -> Np.rectangular N rows ->
  payoff_func (Arr2 N rows) K type = Ok payoff ->
  length payoff = length tv -> Np.rectangular N payoff ->
  (forall x y, fit_func x y args = Raise e) ->
  exists X_j payoff_j payoff_M d,
    rows !! (length tv - 2)%nat = Some X_j /\
    payoff !! (length tv - 2)%nat = Some payoff_j /\
    payoff !! (length tv - 1)%nat = Some payoff_M /\
    map (fun d => fexp (fmul (fopp r) d)) (diff tv) !! (length tv - 2)%nat
      = Some d /\
    let itm := map (fun p => fgt p fzero) payoff_j in
    lsmc (Arr1 tv) (Arr2 N rows) K r payoff_func type fit_func pred_func args
    = ([CallPayoff (Arr2 N rows) K type;
        CallFit (Index.compress itm X_j)
                (map (fun c => fmul c d) (Index.compress itm payoff_M))],
       Raise e).
Proof.
  intros Htv Hrows Hrect Hpayoff Hlen Hprect Hfit.
  set (discount_factor := map (fun d => fexp (fmul (fopp r) d)) (diff tv)).
  assert (length discount_factor = (length tv - 1)%nat) as Hdisc
    by (unfold discount_factor; by rewrite length_map, length_diff).
  destruct (lsmc_backward_init N rows payoff discount_factor fit_func
              pred_func args (length tv - 1)) as
    (payoff_M & st0 & HpM & Hshape & HcfM & Hinit); [lia|lia|done|].
  destruct Hshape as (Hsr & Hsr_rect & Hcf & Hcf_rect).
  destruct (lookup_lt_is_Some_2 rows (length tv - 2)) as [X_j HXj]; [lia|].
  destruct (lookup_lt_is_Some_2 payoff (length tv - 2)) as [payoff_j Hpj];
    [lia|].
  destruct (lookup_lt_is_Some_2 discount_factor (length tv - 2)) as [d Hd];
    [lia|].
  pose proof (proj1 (Forall_lookup _ _) Hprect _ _ Hpj) as Hlen_pj.
  pose proof (proj1 (Forall_lookup _ _) Hprect _ _ HpM) as Hlen_pM.
  pose proof (proj1 (Forall_lookup _ _) Hrect _ _ HXj) as Hlen_Xj.
  simpl in Hlen_pj, Hlen_pM, Hlen_Xj.
  exists X_j, payoff_j, payoff_M, d. split_and!; try done.
  cbv zeta. apply (lsmc_backward_Raise _ _ _ _ _ _ _ _ _ _ payoff); try done. fold discount_factor.
  replace (Z.of_nat (length tv) - 1) with (Z.of_nat (length tv - 1)) by lia.
  rewrite Hinit.
  replace (length tv - 1 - 1)%nat with (S (length tv - 3)) in * by lia.
  replace (length tv - 2)%nat with (S (length tv - 3)) in * by lia.
  cbn [range_down for_each]. apply bind_Raise.
  apply lsmc_step_fit_Raise; try done; congruence.
Qed.

(** X9: on well-shaped arguments with at least three dates, a prediction
    that has neither one value per path it was given nor a single value
    cannot be paired with the exercise values: the routine raises a
    ValueError at the first pass of the loop, after one call of the fit
    function and one of the prediction function. *)
Theorem ill_sized_prediction_raises (tv : list F) N rows K r payoff_func type
    fit_func pred_func args payoff :
  (3 <= length tv)%nat -> length rows = length tv -> Np.rectangular N rows ->
  payoff_func (Arr2 N rows) K type = Ok payoff ->
  length payoff = length tv -> Np.rectangular N payoff ->
  (forall x y, exists fit, fit_func x y args = Ok fit) ->
  (forall x fit, exists EV_cont,
     pred_func x fit args = Ok EV_cont /\
     length EV_cont <> length x /\ length EV_cont <> 1%nat) ->
  exists x y,
    lsmc (Arr1 tv) (Arr2 N rows) K r payoff_func type fit_func pred_func args
    = ([CallPayoff (Arr2 N rows) K type; CallFit x y; CallPredict x],
       Raise ValueError).
Proof.
  intros Htv Hrows Hrect Hpayoff Hlen Hprect Hfit Hpred.
  set (discount_factor := map (fun d => fexp (fmul (fopp r) d)) (diff tv)).
  assert (length discount_factor = (length tv - 1)%nat) as Hdisc
    by (unfold discount_factor; by rewrite length_map, length_diff).
  destruct (lsmc_backward_init N rows payoff discount_factor fit_func
              pred_func args (length tv - 1)) as
    (payoff_M & st0 & HpM & Hshape & HcfM & Hinit); [lia|lia|done|].
  destruct Hshape as (Hsr & Hsr_rect & Hcf & Hcf_rect).
  destruct (lookup_lt_is_Some_2 rows (length tv - 2)) as [X_j HXj]; [lia|].
  destruct (lookup_lt_is_Some_2 payoff (length tv - 2)) as [payoff_j Hpj];
    [lia|].
  destruct (lookup_lt_is_Some_2 discount_factor (length tv - 2)) as [d Hd];
    [lia|].
  destruct (lookup_lt_is_Some_2 st0.1 (length tv - 3)) as [row0 Hrow0]; [lia|].
  pose proof (proj1 (Forall_lookup _ _) Hprect _ _ Hpj) as Hlen_pj.
  pose proof (proj1 (Forall_lookup _ _) Hprect _ _ HpM) as Hlen_pM.
  pose proof (proj1 (Forall_lookup _ _) Hrect _ _ HXj) as Hlen_Xj.
  pose proof (proj1 (Forall_lookup _ _) Hsr_rect _ _ Hrow0) as Hlen_row0.
  simpl in Hlen_pj, Hlen_pM, Hlen_Xj, Hlen_row0.
  set (itm := map (fun p => fgt p fzero) payoff_j).
  set (x := Index.compress itm X_j).
  set (y := map (fun c => fmul c d) (Index.compress itm payoff_M)).
  destruct (Hfit x y) as [fit Hfit'].
  destruct (Hpred x fit) as (EV_cont & Hpred' & HEV & HEV1).
  exists x, y.
  apply (lsmc_backward_Raise _ _ _ _ _ _ _ _ _ _ payoff); try done. fold discount_factor.
  replace (Z.of_nat (length tv) - 1) with (Z.of_nat (length tv - 1)) by lia.
  rewrite Hinit.
  replace (length tv - 1 - 1)%nat with (S (length tv - 3)) in * by lia.
  replace (length tv - 2)%nat with (S (length tv - 3)) in * by lia.
  cbn [range_down for_each]. apply bind_Raise.
  eapply (lsmc_step_pred_ill_sized _ _ _ _ _ _ _ _ _ payoff_j X_j payoff_M d
            row0 fit EV_cont); try done; try congruence; try lia.
  by replace (S (length tv - 3) - 1)%nat with (length tv - 3)%nat by lia.
Qed.

(** X10: a payoff matrix that does not fit the time grid is refused right
    after the payoff call, before the estimator is used: with fewer rows
    than dates, reading its last row raises an IndexError; with a last row
    that has neither one value per path nor a single value, the first
    assignment raises a ValueError. *)
Theorem ill_shaped_payoff_raises (tv : list F) N rows K r payoff_func type
    fit_func pred_func args payoff :
  (1 <= length tv)%nat -> length rows = length tv ->
  payoff_func (Arr2 N rows) K type = Ok payoff ->
  ((length payoff < length tv)%nat ->
   lsmc (Arr1 tv) (Arr2 N rows) K r payoff_func type fit_func pred_func args
   = ([CallPayoff (Arr2 N rows) K type], Raise IndexError)) /\
  (forall payoff_M,
     payoff !! (length tv - 1)%nat = Some payoff_M ->
     length payoff_M <> N -> length payoff_M <> 1%nat ->
     lsmc (Arr1 tv) (Arr2 N rows) K r payoff_func type fit_func pred_func args
     = ([CallPayoff (Arr2 N rows) K type], Raise ValueError)).
Proof.
  intros Htv Hrows Hpayoff. split.
  - intros Hshort. apply (lsmc_backward_Raise _ _ _ _ _ _ _ _ _ _ payoff); try done.
    unfold lsmc_backward.
    rewrite (bind_lift_eq _ _ tt).
    2:{ destruct (Z.ltb_spec (Z.of_nat (length tv) - 1) 0); [lia|done]. }
    apply bind_Raise. unfold lift. f_equal.
    unfold Index.getrow, Index.norm_index.
    destruct (Z.ltb_spec (Z.of_nat (length tv) - 1) 0); [lia|].
    destruct (Z.leb_spec 0 (Z.of_nat (length tv) - 1)); [|lia].
    destruct (Z.ltb_spec (Z.of_nat (length tv) - 1)
                (Z.of_nat (length payoff))); [lia|done].
  - intros payoff_M HpM HN H1. apply (lsmc_backward_Raise _ _ _ _ _ _ _ _ _ _ payoff); try done.
    unfold lsmc_backward.
    rewrite (bind_lift_eq _ _ tt).
    2:{ destruct (Z.ltb_spec (Z.of_nat (length tv) - 1) 0); [lia|done]. }
    replace (Z.of_nat (length tv) - 1) with (Z.of_nat (length tv - 1)) by lia.
    rewrite (bind_lift_eq _ _ payoff_M) by (by apply getrow_nat).
    apply bind_Raise. unfold lift. f_equal.
    unfold Index.setrows_from.
    rewrite broadcast_to_ill_sized; [done| |]; by rewrite length_map.
Qed.

End FailuresRoutine.

Lemma well_shaped_run_returns_witness :
  exists tr price,
    lsmc Demo.t4 Demo.X4 40%float 0%float Demo.put_payoff "PUT"
         Demo.fit_mean Demo.pred_mean tt = (tr, Ok price).
Proof.
  apply (well_shaped_run_returns [0; 1; 2; 3]%float 3 (data2 Demo.X4)
           40%float 0%float Demo.put_payoff "PUT" Demo.fit_mean
           Demo.pred_mean tt Demo.payoff4).
  - simpl. lia.
  - reflexivity.
  - repeat constructor.
  - vm_compute. reflexivity.
  - reflexivity.
  - repeat constructor.
  - intros x y. eexists. reflexivity.
  - intros x fit. eexists. split; [reflexivity|]. apply length_replicate.
Defined.

Lemma fit_failure_propagates_witness :
  exists X_j payoff_j payoff_M d,
    data2 Demo.X4 !! 2%nat = Some X_j /\
    Demo.payoff4 !! 2%nat = Some payoff_j /\
    Demo.payoff4 !! 3%nat = Some payoff_M /\
    map (fun d => fexp (fmul (fopp 0%float) d)) (diff [0; 1; 2; 3]%float)
      !! 2%nat = Some d /\
    let itm := map (fun p => fgt p fzero) payoff_j in
    lsmc Demo.t4 Demo.X4 40%float 0%float Demo.put_payoff "PUT"
         (fun _ _ _ => Raise (Exception "singular matrix") : result float)
         Demo.pred_mean tt
    = ([CallPayoff Demo.X4 40%float "PUT";
        CallFit (Index.compress itm X_j)
                (map (fun c => fmul c d) (Index.compress itm payoff_M))],
       Raise (Exception "singular matrix")).
Proof.
  apply (fit_failure_propagates [0; 1; 2; 3]%float 3 (data2 Demo.X4)
           40%float 0%float Demo.put_payoff "PUT"
           (fun _ _ _ => Raise (Exception "singular matrix"))
           Demo.pred_mean tt Demo.payoff4 (Exception "singular matrix")).
  - simpl. lia.
  - reflexivity.
  - repeat constructor.
  - vm_compute. reflexivity.
  - reflexivity.
  - repeat constructor.
  - reflexivity.
Defined.

Lemma ill_sized_prediction_raises_witness :
  exists x y,
    lsmc Demo.t4 Demo.X4 40%float 0%float Demo.put_payoff "PUT"
         Demo.fit_mean
         (fun x (_ : float) _ => Ok (0 :: 0 :: x)%float) tt
    = ([CallPayoff Demo.X4 40%float "PUT"; CallFit x y; CallPredict x],
       Raise ValueError).
Proof.
  apply (ill_sized_prediction_raises [0; 1; 2; 3]%float 3 (data2 Demo.X4)
           40%float 0%float Demo.put_payoff "PUT" Demo.fit_mean
           (fun x (_ : float) _ => Ok (0 :: 0 :: x)%float) tt Demo.payoff4).
  - simpl. lia.
  - reflexivity.
  - repeat constructor.
  - vm_compute. reflexivity.
  - reflexivity.
  - repeat constructor.
  - intros x y. eexists. reflexivity.
  - intros x fit. eexists. split; [reflexivity|]. simpl. lia.
Defined.

Lemma ill_shaped_payoff_raises_witness :
  lsmc Demo.t4 Demo.X4 40%float 0%float
       (fun _ _ _ => Ok [[0; 0; 0]]%float) "PUT"
       Demo.fit_mean Demo.pred_mean tt
  = ([CallPayoff Demo.X4 40%float "PUT"], Raise IndexError).
Proof.
  apply (proj1 (ill_shaped_payoff_raises [0; 1; 2; 3]%float 3
                  (data2 Demo.X4) 40%float 0%float
                  (fun _ _ _ => Ok [[0; 0; 0]]%float) "PUT"
                  Demo.fit_mean Demo.pred_mean tt [[0; 0; 0]]%float
                  ltac:(simpl; lia) eq_refl eq_refl)).
  simpl. lia.
Defined.

(** ** What the loop reads *)

Section Reads.
Context {F : Type} `{Scalar F} {Model Params : Type}.

Lemma getrow_lookup_ext {A} (m m' : list (list A)) k :
  m !! k = m' !! k ->
  Index.getrow m (Z.of_nat k) = Index.getrow m' (Z.of_nat k).
Proof.
  assert (forall m0 : list (list A), m0 !! k = None ->
            Index.getrow m0 (Z.of_nat k) = Raise IndexError) as Hnone.
  { intros m0 Hk%lookup_ge_None. unfold Index.getrow, Index.norm_index.
    destruct (Z.ltb_spec (Z.of_nat k) 0); [lia|].
    destruct (Z.leb_spec 0 (Z.of_nat k)); [|lia].
    destruct (Z.ltb_spec (Z.of_nat k) (Z.of_nat (length m0))); [lia|done]. }
  intros Hk. destruct (m !! k) as [row|] eqn:Hrow.
  - rewrite (proj2 (getrow_nat m k row) Hrow).
    symmetry. by apply getrow_nat.
  - rewrite !Hnone; done.
Qed.

Lemma for_each_ext_in {S J} (js : list J) (f g : J -> S -> comp F S) s :
  (forall j s', j ∈ js -> f j s' = g j s') ->
  for_each js f s = for_each js g s.
Proof.
  revert s. induction js as [|j js IH]; intros s Hfg; simpl; [done|].
  rewrite Hfg by left.
  destruct (g j s) as [tr [s'|e]]; unfold mbind, comp_bind; [|done].
  rewrite IH; [done|]. intros j' s'' Hj'. apply Hfg. by right.
Qed.

Lemma elem_of_range_down j k : j ∈ range_down k -> (1 <= j <= k)%nat.
Proof.
  induction k as [|k IH]; simpl; [by intros ?%elem_of_nil|].
  intros [->|Hj%IH]%elem_of_cons; lia.
Qed.

Lemma lsmc_step_rows_ext N (X X' payoff payoff' : list (list F))
    discount_factor (fit_func : @fit_fn F Model Params)
    (pred_func : @pred_fn F Model Params) args j st :
  X !! j = X' !! j -> payoff !! j = payoff' !! j ->
  lsmc_step N X payoff discount_factor fit_func pred_func args j st
  = lsmc_step N X' payoff' discount_factor fit_func pred_func args j st.
Proof.
  intros HX Hpayoff. unfold lsmc_step, Index.getitem_row_mask.
  by rewrite (getrow_lookup_ext payoff payoff' j),
             (getrow_lookup_ext X X' j).
Qed.

(** X11: the initialisation and the loop read the prices only at the
    interior dates and never read the payoff of the first date: with at
    least one exercise date, two price matrices that agree on rows
    [1..M-1] and two payoff matrices that differ in row 0 only give the
    same calls and the same matrices or exception. *)
Theorem loop_reads_interior_rows_only (M : Z) N (X X' : list (list F))
    (p0 p0' : list F) (ps : list (list F)) discount_factor
    (fit_func : @fit_fn F Model Params) (pred_func : @pred_fn F Model Params)
    args :
  1 <= M ->
  (forall j, (1 <= j)%nat -> Z.of_nat j < M -> X !! j = X' !! j) ->
  lsmc_backward M N X (p0 :: ps) discount_factor fit_func pred_func args
  = lsmc_backward M N X' (p0' :: ps) discount_factor fit_func pred_func args.
Proof.
  intros HM HX. unfold lsmc_backward.
  assert (Index.getrow (p0 :: ps) M = Index.getrow (p0' :: ps) M) as ->.
  { replace M with (Z.of_nat (Z.to_nat M)) by lia.
    apply getrow_lookup_ext.
    destruct (Z.to_nat M) as [|k] eqn:Hk; [lia|done]. }
  apply bind_ext. intros _. apply bind_ext. intros payoff_M.
  apply bind_ext. intros sr. apply bind_ext. intros cf.
  apply for_each_ext_in. intros j st Hj%elem_of_range_down.
  apply lsmc_step_rows_ext.
  - apply HX; lia.
  - destruct j as [|j]; [lia|done].
Qed.

End Reads.

Lemma loop_reads_interior_rows_only_witness :
  lsmc_backward 3 3 (data2 Demo.X4) Demo.payoff4 [1; 1; 1]%float
                Demo.fit_mean Demo.pred_mean tt
  = lsmc_backward 3 3
      [[0; 0; 0]; [30; 45; 38]; [36; 38; 39]; [1; 2; 3]]%float
      ([7; 7; 7]%float :: tail Demo.payoff4) [1; 1; 1]%float
      Demo.fit_mean Demo.pred_mean tt.
Proof.
  apply (loop_reads_interior_rows_only 3 3 (data2 Demo.X4)
           [[0; 0; 0]; [30; 45; 38]; [36; 38; 39]; [1; 2; 3]]%float
           [0; 0; 0]%float [7; 7; 7]%float (tail Demo.payoff4)).
  - lia.
  - intros [|[|[|j]]] Hj1 Hj2; try lia; reflexivity.
Defined.

(** ** The time grid enters through its increments *)

Section TimeShift.
Local Open Scope R_scope.

Lemma diff_shift (c : R) (ts : list R) :
  diff (Fin <$> map (fun t => t + c) ts) = diff (Fin <$> ts).
Proof.
  destruct ts as [|a ts]; [done|]. revert a.
  induction ts as [|b ts IH]; intros a; [done|].
  cbn [map fmap list_fmap]. rewrite !diff_cons. f_equal.
  - simpl. f_equal. lra.
  - apply (IH b).
Qed.

(** X12: in exact arithmetic the time grid enters only through its
    increments: moving every date by the same amount changes neither the
    calls nor the price or exception (in floating point the increments of
    the moved grid can round differently). *)
Theorem price_unchanged_by_time_shift {Model Params : Type}
    (c : R) (ts : list R) (X : ndarray Rnan) (K r : Rnan)
    (payoff_func : @payoff_fn Rnan) (type : string)
    (fit_func : @fit_fn Rnan Model Params)
    (pred_func : @pred_fn Rnan Model Params) (args : Params) :
  lsmc (Arr1 (Fin <$> map (fun t => t + c) ts)) X K r payoff_func type
       fit_func pred_func args
  = lsmc (Arr1 (Fin <$> ts)) X K r payoff_func type fit_func pred_func args.
Proof.
  unfold lsmc, lsmc_locals. cbn [ndim len data1].
  by rewrite diff_shift, !length_fmap, ?length_map.
Qed.

End TimeShift.

Lemma collapse_int64_exact_witness :
  Np.collapse_int64 [[false; true]; [true; true]; [true; false]]
  = Np.collapse [[false; true]; [true; true]; [true; false]].
Proof.
  apply (collapse_int64_exact [[false; true]; [true; true]; [true; false]]).
  simpl. lia.
Defined.

(** ** A date at which no path is in the money *)

Section EmptyDate.
Context {F : Type} `{Scalar F} {Model Params : Type}.
Implicit Types (t X : ndarray F) (K r : F) (type : string) (args : Params).
Implicit Types (payoff_func : @payoff_fn F) (fit_func : @fit_fn F Model Params).
Implicit Types (pred_func : @pred_fn F Model Params).

Lemma compress_none {A} (mask : list bool) (v : list A) :
  Forall (fun b => b = false) mask -> Index.compress mask v = [].
Proof.
  intros Hmask. revert v.
  induction Hmask as [|b mask -> _ IH]; intros [|x v]; simpl; auto.
Qed.

Lemma range_down_split j k :
  (1 <= j <= k)%nat ->
  exists above, range_down k = above ++ j :: range_down (j - 1).
Proof.
  induction k as [|k IH]; intros Hj; [lia|].
  destruct (decide (j = S k)) as [->|Hne].
  - exists []. simpl. by rewrite Nat.sub_0_r.
  - destruct IH as [above Habove]; [lia|].
    exists (S k :: above). simpl. by rewrite Habove.
Qed.

(** X14: the estimator is called at every interior date, also at one where
    no path is in the money: the fit function and then the prediction
    function are called there on empty arrays. *)
Theorem estimator_called_on_empty_arrays
    t X K r payoff_func type fit_func pred_func args tr price
    payoff j payoff_j :
  lsmc t X K r payoff_func type fit_func pred_func args = (tr, Ok price) ->
  payoff_func X K type = Ok payoff ->
  (1 <= j)%nat -> (j + 2 <= len t)%nat ->
  payoff !! j = Some payoff_j ->
  Forall (fun p => fgt p fzero = false) payoff_j ->
  exists before after,
    tr = before ++ [CallFit [] []; CallPredict []] ++ after.
Proof.
  unfold lsmc.
  intros (l & tr1 & tr2 & Hrun & [= <- <-] & ->)%bind_Ok Hpayoff Hj1 Hj2
         Hpj Hout.
  rewrite app_nil_r.
  apply lsmc_locals_Ok in Hrun
    as (tv & N & rows & payoff' & st & tr' & Hinv). simpl in Hinv.
  destruct Hinv as (-> & -> & Hlen & Hpayoff' & Hback & -> & _).
  assert (payoff' = payoff) as -> by congruence. simpl in Hj2.
  pose proof Hback as (_ & -> & _)%lsmc_backward_calls.
  apply lsmc_backward_Ok in Hback
    as (Mn & _ & _ & _ & HM & _ & _ & _ & _ & _ & _ & Hdates).
  destruct (Hdates j) as (cf_j & row & cash & Hcfj & _ & _ & Hrows); [lia|].
  destruct Hrows as (payoff_j' & X_j & d & fit & EV & decision & vals & Hrows).
  simpl in Hrows. destruct Hrows as (Hpj' & _ & HXj & _ & Hd & _).
  assert (payoff_j' = payoff_j) as -> by congruence.
  destruct (range_down_split j (Z.to_nat (Z.of_nat (length tv) - 1 - 1)))
    as [above Habove]; [lia|].
  rewrite Habove, flat_map_app. simpl.
  eexists (_ :: _), _. rewrite app_comm_cons. f_equal.
  unfold date_calls at 1. rewrite Hpj, HXj, Hcfj, Hd.
  assert (Forall (fun b => b = false)
            (map (fun p => fgt p fzero) payoff_j)) as Hmask.
  { change (map (fun p => fgt p fzero) payoff_j)
      with ((fun p => fgt p fzero) <$> payoff_j).
    by apply Forall_fmap. }
  by rewrite !compress_none.
Qed.

End EmptyDate.

Lemma estimator_called_on_empty_arrays_witness :
  exists before after,
    [CallPayoff (Arr2 2 [[40; 40]; [45; 50]; [30; 41]]%float) 40%float "PUT";
     CallFit [] []; CallPredict []]
    = before ++ [CallFit [] []; CallPredict []] ++ after.
Proof.
  apply (estimator_called_on_empty_arrays
           (Arr1 [0; 1; 2]%float)
           (Arr2 2 [[40; 40]; [45; 50]; [30; 41]]%float)
           40%float 0%float Demo.put_payoff "PUT"
           Demo.fit_mean Demo.pred_mean tt _ 5%float
           [[0; 0]; [0; 0]; [10; 0]]%float 1 [0; 0]%float).
  - vm_compute. reflexivity.
  - vm_compute. reflexivity.
  - lia.
  - simpl. lia.
  - reflexivity.
  - repeat constructor.
Defined.

(** * Binary64: zero payoffs and overflow *)

(** ** Facts on binary64 *)

Section Binary64Facts.
Import SpecFloat.

(** Rounding a positive mantissa, at an exponent that is not below the
    smallest one, does not give zero or NaN. *)

Lemma shr_1_m mrs : 0 <= shr_m mrs -> shr_m (shr_1 mrs) = shr_m mrs / 2.
Proof.
  destruct mrs as [m r s]. simpl. intros Hm.
  destruct m as [|[p|p|]|p]; simpl; try done; try lia.
  - rewrite Pos2Z.inj_xI. apply (Z.div_unique _ _ _ 1); lia.
  - rewrite Pos2Z.inj_xO. apply (Z.div_unique _ _ _ 0); lia.
Qed.

Lemma iter_shr_1_m k mrs :
  0 <= shr_m mrs ->
  shr_m (iter_pos shr_1 k mrs) = shr_m mrs / 2 ^ Z.pos k.
Proof.
  assert (forall k, 0 < 2 ^ Z.pos k) as Hpow
    by (intros; apply Z.pow_pos_nonneg; lia).
  revert mrs. induction k as [k IH|k IH|]; intros mrs Hm; cbn [iter_pos].
  - assert (2 ^ Z.pos k~1 = 2 * (2 ^ Z.pos k * 2 ^ Z.pos k)) as ->.
    { change (Z.pos k~1) with (2 * Z.pos k + 1).
      replace (2 * Z.pos k + 1) with (1 + (Z.pos k + Z.pos k)) by lia.
      rewrite !Z.pow_add_r by lia. lia. }
    assert (0 <= shr_m (shr_1 mrs)) as H1.
    { rewrite shr_1_m by done. apply Z.div_pos; lia. }
    assert (0 <= shr_m (iter_pos shr_1 k (shr_1 mrs))) as H2.
    { rewrite IH by done. apply Z.div_pos; [done|apply Hpow]. }
    rewrite IH, IH, shr_1_m by done.
    pose proof (Hpow k).
    rewrite !Z.div_div by lia. done.
  - assert (2 ^ Z.pos k~0 = 2 ^ Z.pos k * 2 ^ Z.pos k) as ->.
    { change (Z.pos k~0) with (2 * Z.pos k).
      replace (2 * Z.pos k) with (Z.pos k + Z.pos k) by lia.
      by rewrite !Z.pow_add_r by lia. }
    assert (0 <= shr_m (iter_pos shr_1 k mrs)) as H2.
    { rewrite IH by done. apply Z.div_pos; [done|apply Hpow]. }
    rewrite IH, IH by done.
    pose proof (Hpow k).
    rewrite !Z.div_div by lia. done.
  - by rewrite shr_1_m.
Qed.

Lemma digits2_pos_lower p : 2 ^ (Z.pos (digits2_pos p) - 1) <= Z.pos p.
Proof.
  induction p as [p IH|p IH|]; cbn [digits2_pos]; [| |done].
  - rewrite Pos2Z.inj_succ.
    replace (Z.succ (Z.pos (digits2_pos p)) - 1)
      with (Z.succ (Z.pos (digits2_pos p) - 1)) by lia.
    rewrite Z.pow_succ_r by lia. lia.
  - rewrite Pos2Z.inj_succ.
    replace (Z.succ (Z.pos (digits2_pos p)) - 1)
      with (Z.succ (Z.pos (digits2_pos p) - 1)) by lia.
    rewrite Z.pow_succ_r by lia. lia.
Qed.

Lemma shr_fexp_pos m e l mrs' e' :
  0 < m -> emin prec emax <= e ->
  shr_fexp prec emax m e l = (mrs', e') ->
  0 < shr_m mrs' /\ emin prec emax <= e'.
Proof.
  intros Hm He. unfold shr_fexp, shr.
  assert (shr_m (shr_record_of_loc m l) = m) as Hrec
    by (by destruct l as [|[]]).
  destruct m as [|p|p]; [lia| |lia]. cbn [Zdigits2].
  destruct (fexp prec emax (Z.pos (digits2_pos p) + e) - e) as [|k|k] eqn:Hn.
  - intros [= <- <-]. by rewrite Hrec.
  - intros [= <- <-].
    unfold fexp in Hn. unfold emin, prec, emax in *.
    assert (Z.pos k = Z.pos (digits2_pos p) - 53) as Hk by lia.
    rewrite iter_shr_1_m by (rewrite Hrec; lia). rewrite Hrec.
    split; [|lia].
    apply Z.div_str_pos. split; [apply Z.pow_pos_nonneg; lia|].
    etrans; [|apply digits2_pos_lower].
    apply Z.pow_le_mono_r; lia.
  - intros [= <- <-]. by rewrite Hrec.
Qed.

Lemma binary_round_aux_pos sx m e l :
  0 < m -> emin prec emax <= e ->
  match binary_round_aux prec emax sx m e l with
  | S754_finite s _ _ | S754_infinity s => s = sx
  | _ => False
  end.
Proof.
  intros Hm He. unfold binary_round_aux.
  destruct (shr_fexp prec emax m e l) as [mrs' e1] eqn:H1.
  apply shr_fexp_pos in H1 as [Hm1 He1]; [|done..].
  set (m2 := round_nearest_even (shr_m mrs') (loc_of_shr_record mrs')).
  assert (0 < m2) as Hm2.
  { unfold m2, round_nearest_even.
    destruct (loc_of_shr_record mrs') as [|[]]; try lia.
    destruct (Z.even (shr_m mrs')); lia. }
  destruct (shr_fexp prec emax m2 e1 loc_Exact) as [mrs'' e2] eqn:H2.
  apply shr_fexp_pos in H2 as [Hm3 He2]; [|done..].
  destruct (shr_m mrs'') as [|q|q]; [lia| |lia].
  by destruct (e2 <=? emax - prec).
Qed.

(** [float(N)] for a positive count is a positive number or +inf. *)
Lemma of_nat_positive (N : nat) :
  (1 <= N)%nat -> Z.of_nat N < 2 ^ 63 ->
  match Prim2SF (of_uint63 (Uint63.of_Z (Z.of_nat N))) with
  | S754_finite s _ _ | S754_infinity s => s = false
  | _ => False
  end.
Proof.
  intros HN Hlt. rewrite of_uint63_spec, Uint63.of_Z_spec.
  rewrite Z.mod_small by (change Uint63.wB with (2 ^ 63); lia).
  destruct (Z.of_nat N) as [|p|p] eqn:Hp; [lia| |lia].
  unfold binary_normalize, binary_round.
  destruct (shl_align p 0 (fexp prec emax (Z.pos (digits2_pos p) + 0)))
    as [mz ez] eqn:Hshl.
  apply binary_round_aux_pos; [lia|].
  unfold shl_align in Hshl.
  destruct (fexp prec emax (Z.pos (digits2_pos p) + 0) - 0) eqn:Hd;
    injection Hshl as <- <-; unfold fexp, emin, prec, emax in *; lia.
Qed.

End Binary64Facts.

(** The two zeros of binary64 in products, sums and quotients. *)
Section Binary64Zeros.
Import SpecFloat.

Lemma SFeqb_refl_finite s m e :
  SFeqb (S754_finite s m e) (S754_finite s m e) = true.
Proof.
  unfold SFeqb. simpl.
  destruct s; by rewrite Z.compare_refl, Pos.compare_cont_refl.
Qed.

Lemma is_zero_spec z :
  PrimFloat.is_zero z = true <-> exists s, Prim2SF z = S754_zero s.
Proof.
  unfold PrimFloat.is_zero. rewrite FloatAxioms.eqb_spec.
  change (Prim2SF PrimFloat.zero) with (S754_zero false).
  destruct (Prim2SF z) as [s|s| |s m e]; unfold SFeqb; simpl.
  - split; [eauto|done].
  - split; [by destruct s|by intros [? ?]].
  - split; [done|by intros [? ?]].
  - split; [by destruct s|by intros [? ?]].
Qed.

Lemma is_finite_spec x :
  PrimFloat.is_finite x = true <->
  match Prim2SF x with
  | S754_zero _ | S754_finite _ _ _ => True
  | _ => False
  end.
Proof.
  unfold PrimFloat.is_finite, PrimFloat.is_nan, PrimFloat.is_infinity.
  rewrite !FloatAxioms.eqb_spec, FloatAxioms.abs_spec.
  change (Prim2SF PrimFloat.infinity) with (S754_infinity false).
  destruct (Prim2SF x) as [s|s| |s m e]; simpl.
  - by destruct s.
  - by destruct s.
  - done.
  - rewrite SFeqb_refl_finite. simpl. done.
Qed.

Lemma is_zero_finite z :
  PrimFloat.is_zero z = true -> PrimFloat.is_finite z = true.
Proof.
  intros [s Hz]%is_zero_spec. apply is_finite_spec. by rewrite Hz.
Qed.

Lemma gt_zero_false z :
  PrimFloat.is_zero z = true -> (0 <? z)%float = false.
Proof.
  intros [s Hz]%is_zero_spec. rewrite FloatAxioms.ltb_spec, Hz.
  by change (Prim2SF 0) with (S754_zero false).
Qed.

Lemma mul_zero_l z x :
  PrimFloat.is_zero z = true -> PrimFloat.is_finite x = true ->
  PrimFloat.is_zero (z * x) = true.
Proof.
  intros [s Hz]%is_zero_spec Hx%is_finite_spec. apply is_zero_spec.
  rewrite FloatAxioms.mul_spec, Hz. unfold SF64mul, SFmul.
  destruct (Prim2SF x) as [s'|s'| |s' m e]; try done; eauto.
Qed.

Lemma add_zero_r z : PrimFloat.is_zero z = true -> (0 + z)%float = 0%float.
Proof.
  intros [s Hz]%is_zero_spec. apply Prim2SF_inj.
  rewrite FloatAxioms.add_spec, Hz. change (Prim2SF 0) with (S754_zero false).
  by destruct s.
Qed.

Lemma div_zero_l x :
  match Prim2SF x with
  | S754_finite s _ _ | S754_infinity s => s = false
  | _ => False
  end ->
  (0 / x)%float = 0%float.
Proof.
  intros Hx. apply Prim2SF_inj. rewrite FloatAxioms.div_spec.
  change (Prim2SF 0) with (S754_zero false). unfold SF64div, SFdiv.
  destruct (Prim2SF x) as [s|s| |s m e]; try done; by subst.
Qed.

End Binary64Zeros.

Section Binary64Paths.
Context (libm_exp : float -> float) {Model Params : Type}.
Local Notation "'B64'" := (Binary64.scalar libm_exp).
Implicit Types (t X : ndarray float) (K r : float) (type : string).
Implicit Types (args : Params) (payoff_func : @payoff_fn float).
Implicit Types (fit_func : @fit_fn float Model Params).
Implicit Types (pred_func : @pred_fn float Model Params).

Lemma fsum_zeros_binary64 (v : list float) :
  Forall (fun z => PrimFloat.is_zero z = true) v -> fsum (H := B64) v = 0%float.
Proof.
  unfold fsum. cbn [fzero fadd Binary64.scalar].
  induction 1 as [|z v Hz _ IH]; [done|]. simpl.
  by rewrite add_zero_r.
Qed.

Lemma matvec_transpose_lookup N (cf : list (list float)) (cp : list float) n :
  (n < N)%nat ->
  matvec (H := B64) (transpose N cf) cp !! n
  = Some (dot (H := B64) (Np.column n cf) cp).
Proof.
  intros Hn. unfold matvec, transpose.
  rewrite !list_lookup_fmap, lookup_seq_lt by done. done.
Qed.

(** C8, as the code has it, in binary64 and for any [exp] of the C
    library: in a run that reaches the return, a path whose payoff is 0
    (either zero of binary64) at every exercise date has a stopping-rule
    column that is false throughout and a cashflow column that is 0
    throughout.  Its discounted cashflow is 0 when every cumulative
    discount factor is a finite number; an infinite factor, which a
    finite rate gives once [np.exp] overflows, makes it 0 * inf = NaN.
    When every path is such a path the stopping rule is false everywhere,
    and with at least one path and finite cumulative discount factors the
    returned price is 0. *)
Theorem zero_payoff_paths_contribute_zero
    t X K r payoff_func type fit_func pred_func args tr l payoff :
  lsmc_locals (H := B64) t X K r payoff_func type fit_func pred_func args
    = (tr, Ok l) ->
  payoff_func X K type = Ok payoff ->
  Np.rectangular (shape1 X) payoff ->
  let zero_path n :=
    forall j, (1 <= j < len t)%nat ->
      exists z, Np.entry payoff j n = Some z /\ PrimFloat.is_zero z = true in
  let no_overflow :=
    Forall (fun c => PrimFloat.is_finite c = true)
           (cumprod (H := B64)
              (map (fun d => libm_exp (- r * d)%float)
                   (diff (H := B64) (data1 t)))) in
  (forall n, (n < shape1 X)%nat -> zero_path n ->
     (forall i, (S i < len t)%nat ->
        Np.entry (stopping_rule l) i n = Some false /\
        exists c, Np.entry (cashflow l) i n = Some c /\
                  PrimFloat.is_zero c = true) /\
     (no_overflow -> discounted l !! n = Some 0%float)) /\
  ((forall n, (n < shape1 X)%nat -> zero_path n) ->
   stopping_rule l = replicate (len t - 1) (replicate (shape1 X) false) /\
   ((1 <= shape1 X)%nat -> Z.of_nat (shape1 X) < 2 ^ 63 -> no_overflow ->
    price l = 0%float /\
    lsmc (H := B64) t X K r payoff_func type fit_func pred_func args
    = (tr, Ok 0%float))).
Proof.
  intros Hrun Hpayoff Hrect zero_path no_overflow.
  pose proof Hrun as (tv & N & rows & payoff' & st & tr' & Hinv)%lsmc_locals_Ok.
  simpl in Hinv.
  destruct Hinv as (-> & -> & _ & Hpayoff' & Hback & _ & Hsr & Hcf & Hdisc
                    & Hprice).
  assert (payoff' = payoff) as -> by congruence.
  subst zero_path no_overflow. cbn [len shape1 data1] in *.
  pose proof Hback as Hback'.
  apply lsmc_backward_Ok in Hback'
    as (Mn & _ & _ & _ & HM & (Hsr_len & Hsr_rect & Hcf_len & Hcf_rect) & _).
  assert (length tv = S (S Mn)) as HMn by lia.
  replace (Z.of_nat (length tv) - 1) with (Z.of_nat (length tv - 1))
    in Hback by lia.
  pose proof (collapse_rect _ _ Hsr_rect) as Hfinal_rect.
  pose proof (collapse_length st.1) as Hfinal_len.
  destruct (mask_mul_shape (H := B64) (S Mn) N (Np.collapse st.1) st.2)
    as [Hcash_len Hcash_rect]; try done; [congruence|].
  rewrite <- Hsr in Hfinal_rect, Hfinal_len.
  rewrite <- Hcf in Hcash_len, Hcash_rect.
  assert (forall n, (n < N)%nat ->
            (forall j, (1 <= j < length tv)%nat ->
               exists z, Np.entry payoff j n = Some z /\
                         PrimFloat.is_zero z = true) ->
            forall i, (S i < length tv)%nat ->
              Np.entry (stopping_rule l) i n = Some false /\
              exists c, Np.entry (cashflow l) i n = Some c /\
                        PrimFloat.is_zero c = true) as Hcolumn.
  { intros n Hn Hzero i Hi.
    destruct (tentative_entry _ _ _ _ _ _ _ _ _ st i n Hback Hrect)
      as (b0 & p & Hp & Hb0 & Hotm & _ & Hc); [lia|done|].
    destruct (Hzero (S i)) as (z & Hz & Hz0); [lia|].
    assert (z = p) as -> by congruence.
    assert (b0 = false) as -> by (apply Hotm; simpl; by apply gt_zero_false).
    assert (Np.entry (stopping_rule l) i n = Some false) as Hb.
    { rewrite Hsr, (collapse_entry N) by (done || lia). f_equal.
      apply bool_decide_eq_false_2. intros Hfirst.
      apply (first_true_index_Some N) in Hfirst as [Htrue _]; [|done..].
      congruence. }
    split; [done|]. eexists. split.
    { rewrite Hcf, <- Hsr. exact (mask_mul_entry (H := B64) _ _ _ _ _ _ Hb Hc). }
    simpl. apply mul_zero_l; [done|]. apply is_zero_finite.
    case_decide; [done|]. apply mul_zero_l; [done|by apply is_zero_finite]. }
  assert (forall n, (n < N)%nat ->
            (forall j, (1 <= j < length tv)%nat ->
               exists z, Np.entry payoff j n = Some z /\
                         PrimFloat.is_zero z = true) ->
            Forall (fun c => PrimFloat.is_finite c = true)
                   (cumprod (H := B64)
                      (map (fun d => libm_exp (- r * d)%float)
                           (diff (H := B64) tv))) ->
            discounted l !! n = Some 0%float) as Hpath.
  { intros n Hn Hzero Hfinite.
    rewrite Hdisc, matvec_transpose_lookup by done. f_equal.
    unfold dot. apply fsum_zeros_binary64.
    apply Forall_lookup. intros i x.
    intros (c & q & -> & Hc & Hq)%lookup_zip_with_Some.
    rewrite (column_lookup N) in Hc by done.
    destruct (Hcolumn n Hn Hzero i) as (_ & c' & Hc' & Hzc).
    { unfold Np.entry in Hc.
      destruct (cashflow l !! i) eqn:Hrow; [|done].
      apply lookup_lt_Some in Hrow. lia. }
    assert (c' = c) as -> by congruence.
    simpl. apply mul_zero_l; [done|].
    exact (proj1 (Forall_lookup _ _) Hfinite _ _ Hq). }
  split.
  - intros n Hn Hzero. split; [by apply Hcolumn|by apply Hpath].
  - intros Hzero. split.
    + apply (matrix_eq N); [|done| |].
      * rewrite length_replicate. lia.
      * apply Forall_replicate, length_replicate.
      * intros i n Hi Hn.
        destruct (Hcolumn n Hn (Hzero n Hn) i) as [-> _]; [lia|].
        unfold Np.entry. rewrite lookup_replicate_2 by lia. simpl.
        by rewrite lookup_replicate_2.
    + intros HN Hlt Hfinite.
      assert (price l = 0%float) as Hzero_price.
      { rewrite Hprice. unfold mean.
        rewrite fsum_zeros_binary64.
        - rewrite Hdisc, (length_matvec_transpose (H := B64)). simpl.
          apply div_zero_l. by apply of_nat_positive.
        - apply Forall_lookup. intros n c Hc.
          assert (n < N)%nat as Hn.
          { apply lookup_lt_Some in Hc.
            by rewrite Hdisc, (length_matvec_transpose (H := B64)) in Hc. }
          rewrite (Hpath n Hn (Hzero n Hn) Hfinite) in Hc.
          by injection Hc as <-. }
      split; [done|]. rewrite <- Hzero_price. by apply lsmc_Ok.
Qed.

End Binary64Paths.

Section Binary64TwoDates.
Context (libm_exp : float -> float) {Model Params : Type}.
Local Notation "'B64'" := (Binary64.scalar libm_exp).

(** C1, as the code has it, in binary64 and for any [exp] of the C
    library: on the time grid [0, 1], three paths and strike 40, with a
    payoff function that gives row [10, 0, 2] at maturity, and for any
    rate [r] and any estimator, the run calls the payoff function and
    nothing else, and ends with stopping rule [[true, false, true]] and
    cashflow [[10, 0, 2]].  With [d = np.exp(-r * (1 - 0))] the discounted
    cashflows are [10 * d, 0 * d, 2 * d] and the price is their mean: 4
    when [d] is 1, and NaN, not [exp(-r) * (10 + 0 + 2) / 3], when [d]
    overflows to [+inf], since [0 * inf] is NaN. *)
Theorem two_date_put_binary64
    (r : float) (payoff_func : @payoff_fn float)
    (fit_func : @fit_fn float Model Params)
    (pred_func : @pred_fn float Model Params) (args : Params)
    (row0 : list float) :
  let t := Arr1 [0; 1]%float in
  let X := Arr2 3 [[40; 40; 40]; [30; 45; 38]]%float in
  let d := libm_exp (- r * (1 - 0))%float in
  let discounted := [0 + 10 * d; 0 + 0 * d; 0 + 2 * d]%float in
  let price := ((0 + (0 + 10 * d) + (0 + 0 * d) + (0 + 2 * d)) / 3)%float in
  payoff_func X 40%float "PUT"%string = Ok [row0; [10; 0; 2]%float] ->
  lsmc_locals (H := B64) t X 40%float r payoff_func "PUT"
              fit_func pred_func args
  = ([CallPayoff X 40%float "PUT"],
     Ok (Locals [[true; false; true]] [[10; 0; 2]]%float discounted price)) /\
  lsmc (H := B64) t X 40%float r payoff_func "PUT" fit_func pred_func args
  = ([CallPayoff X 40%float "PUT"], Ok price) /\
  (d = 1%float -> price = 4%float) /\
  (d = PrimFloat.infinity ->
   discounted = [PrimFloat.infinity; PrimFloat.nan; PrimFloat.infinity] /\
   price = PrimFloat.nan).
Proof.
  intros t X d discounted price Hpayoff.
  assert (lsmc_locals (H := B64) t X 40%float r payoff_func "PUT"
                      fit_func pred_func args
          = ([CallPayoff X 40%float "PUT"],
             Ok (Locals [[true; false; true]] [[10; 0; 2]]%float
                        discounted price))) as Hrun.
  { unfold t, X.
    erewrite (lsmc_locals_single (H := B64)); [|exact Hpayoff|reflexivity].
    subst d discounted price. vm_compute. reflexivity. }
  split; [exact Hrun|]. split.
  { exact (lsmc_Ok (H := B64) _ _ _ _ _ _ _ _ _ _ _ Hrun). }
  subst discounted price. split.
  - intros ->. vm_compute. reflexivity.
  - intros ->. split; vm_compute; reflexivity.
Qed.

End Binary64TwoDates.

Lemma two_date_put_binary64_witness :
  Demo.put_payoff (H := Binary64.scalar Ieee.exp_clamped)
    (Arr2 3 [[40; 40; 40]; [30; 45; 38]]%float) 40%float "PUT"
  = Ok [[0; 0; 0]; [10; 0; 2]]%float /\
  lsmc (H := Binary64.scalar Ieee.exp_clamped)
       (Arr1 [0; 1]%float) (Arr2 3 [[40; 40; 40]; [30; 45; 38]]%float)
       40%float 0%float Demo.put_payoff "PUT" Demo.fit_mean Demo.pred_mean tt
  = ([CallPayoff (Arr2 3 [[40; 40; 40]; [30; 45; 38]]%float) 40%float "PUT"],
     Ok 4%float).
Proof.
  assert (Demo.put_payoff (H := Binary64.scalar Ieee.exp_clamped)
            (Arr2 3 [[40; 40; 40]; [30; 45; 38]]%float) 40%float "PUT"
          = Ok [[0; 0; 0]; [10; 0; 2]]%float) as Hpayoff
    by (vm_compute; reflexivity).
  split; [exact Hpayoff|].
  destruct (two_date_put_binary64 Ieee.exp_clamped 0%float
              Demo.put_payoff Demo.fit_mean Demo.pred_mean tt
              [0; 0; 0]%float Hpayoff) as (_ & Hret & _).
  etrans; [exact Hret|]. vm_compute. reflexivity.
Defined.

(** C1, as the specification states it, fails for a rate whose discount
    factor overflows: with [r = -1000], [np.exp(1000)] is [+inf], the
    discounted cashflows are [inf, nan, inf] and the price is NaN, while
    [exp(-r) * (10 + 0 + 2) / 3] is [+inf]. *)
Lemma two_date_put_price_overflow :
  Ieee.exp_clamped 1000 = PrimFloat.infinity /\
  lsmc_locals (H := Binary64.scalar Ieee.exp_clamped)
       (Arr1 [0; 1]%float) (Arr2 3 [[40; 40; 40]; [30; 45; 38]]%float)
       40%float (-1000)%float Demo.put_payoff "PUT"
       Demo.fit_mean Demo.pred_mean tt
  = ([CallPayoff (Arr2 3 [[40; 40; 40]; [30; 45; 38]]%float) 40%float "PUT"],
     Ok (Locals [[true; false; true]] [[10; 0; 2]]%float
                [PrimFloat.infinity; PrimFloat.nan; PrimFloat.infinity]
                PrimFloat.nan)) /\
  lsmc (H := Binary64.scalar Ieee.exp_clamped)
       (Arr1 [0; 1]%float) (Arr2 3 [[40; 40; 40]; [30; 45; 38]]%float)
       40%float (-1000)%float Demo.put_payoff "PUT"
       Demo.fit_mean Demo.pred_mean tt
  = ([CallPayoff (Arr2 3 [[40; 40; 40]; [30; 45; 38]]%float) 40%float "PUT"],
     Ok PrimFloat.nan) /\
  (Ieee.exp_clamped (- (-1000)) * (10 + 0 + 2) / 3)%float = PrimFloat.infinity /\
  PrimFloat.nan <> PrimFloat.infinity.
Proof.
  split_and!; try (vm_compute; reflexivity).
  intros Heq. apply (f_equal PrimFloat.is_nan) in Heq. vm_compute in Heq.
  discriminate.
Qed.

Section Binary64Examples.
Local Notation "'B'" := (Binary64.scalar Ieee.exp_clamped).

Lemma zero_payoff_paths_contribute_zero_witness :
  let X := Arr2 2 [[45; 50]; [50; 41]; [41; 60]]%float in
  exists tr l,
    lsmc_locals (H := B) (Arr1 [0; 1; 2]%float) X 40%float 0%float
                (Demo.put_payoff (H := B)) "PUT"
                (Demo.fit_mean (H := B)) (Demo.pred_mean (H := B)) tt
    = (tr, Ok l) /\
    stopping_rule l = [[false; false]; [false; false]] /\
    discounted l !! 1%nat = Some 0%float /\
    lsmc (H := B) (Arr1 [0; 1; 2]%float) X 40%float 0%float
         (Demo.put_payoff (H := B)) "PUT"
         (Demo.fit_mean (H := B)) (Demo.pred_mean (H := B)) tt
    = (tr, Ok 0%float).
Proof.
  intros X.
  assert (lsmc_locals (H := B) (Arr1 [0; 1; 2]%float) X 40%float 0%float
            (Demo.put_payoff (H := B)) "PUT"
            (Demo.fit_mean (H := B)) (Demo.pred_mean (H := B)) tt
          = ([CallPayoff X 40%float "PUT"; CallFit [] []; CallPredict []],
             Ok (Locals [[false; false]; [false; false]]
                        [[0; 0]; [0; 0]]%float [0; 0]%float 0%float)))
    as Hrun by (vm_compute; reflexivity).
  destruct (zero_payoff_paths_contribute_zero Ieee.exp_clamped
              _ _ _ _ _ _ _ _ _ _ _ [[0; 0]; [0; 0]; [0; 0]]%float Hrun)
    as [Hpath Hall].
  - vm_compute. reflexivity.
  - repeat constructor.
  - assert (forall n, (n < 2)%nat -> forall j, (1 <= j < 3)%nat ->
              exists z, Np.entry [[0; 0]; [0; 0]; [0; 0]]%float j n = Some z /\
                        PrimFloat.is_zero z = true) as Hzero.
    { intros [|[|n]] Hn [|[|[|j]]] Hj; try lia; by eexists. }
    assert (Forall (fun c => PrimFloat.is_finite c = true)
              (cumprod (H := B)
                 (map (fun d => Ieee.exp_clamped (- 0 * d)%float)
                      (diff (H := B) [0; 1; 2]%float)))) as Hfinite
      by (repeat constructor).
    destruct (Hpath 1%nat ltac:(simpl; lia) (Hzero 1%nat ltac:(lia)))
      as [_ Hdisc].
    destruct (Hall Hzero) as [Hsr Hprice].
    destruct (Hprice ltac:(simpl; lia) ltac:(simpl; lia) Hfinite)
      as [_ Hret].
    eexists _, _. split_and!; [exact Hrun|exact Hsr|exact (Hdisc Hfinite)|exact Hret].
Defined.

(** C8, as the specification states it, fails twice.  Without any path
    every path is out of the money, and the price is the mean of an empty
    array, NaN.  With two paths that are out of the money at every date
    and the finite rate [r = -1000], [np.exp] overflows, every discounted
    cashflow is [0 * inf = NaN] and the price is NaN. *)
Lemma zero_payoff_price_is_nan :
  let X := Arr2 2 [[45; 50]; [50; 41]; [41; 60]]%float in
  let X0 := Arr2 0 [[]; []] in
  lsmc (H := B) (Arr1 [0; 1]%float) X0 40%float 0%float
       (Demo.put_payoff (H := B)) "PUT"
       (Demo.fit_mean (H := B)) (Demo.pred_mean (H := B)) tt
  = ([CallPayoff X0 40%float "PUT"], Ok PrimFloat.nan) /\
  Demo.put_payoff (H := B) X 40%float "PUT"
  = Ok [[0; 0]; [0; 0]; [0; 0]]%float /\
  Ieee.exp_clamped (- (-1000) * (1 - 0)) = PrimFloat.infinity /\
  lsmc_locals (H := B) (Arr1 [0; 1; 2]%float) X 40%float (-1000)%float
              (Demo.put_payoff (H := B)) "PUT"
              (Demo.fit_mean (H := B)) (Demo.pred_mean (H := B)) tt
  = ([CallPayoff X 40%float "PUT"; CallFit [] []; CallPredict []],
     Ok (Locals [[false; false]; [false; false]] [[0; 0]; [0; 0]]%float
                [PrimFloat.nan; PrimFloat.nan] PrimFloat.nan)) /\
  lsmc (H := B) (Arr1 [0; 1; 2]%float) X 40%float (-1000)%float
       (Demo.put_payoff (H := B)) "PUT"
       (Demo.fit_mean (H := B)) (Demo.pred_mean (H := B)) tt
  = ([CallPayoff X 40%float "PUT"; CallFit [] []; CallPredict []],
     Ok PrimFloat.nan) /\
  PrimFloat.nan <> 0%float.
Proof.
  split_and!; try (vm_compute; reflexivity).
  intros Heq. apply (f_equal PrimFloat.is_nan) in Heq. vm_compute in Heq.
  discriminate.
Qed.

End Binary64Examples.
